(** * build_handoff: aggregation of agent findings, patch candidates,
      deduplication and the confirmation template

    A shallow embedding of [build_handoff.py].  The script has no functions:
    it is one sequence of loops over module-level variables.  Each loop is a
    definition below, named after the variable it fills, and [build] chains
    them in the order of the script.  Exceptions are a [result] value, the
    file system and the clock are fields of [world]. *)

From Stdlib Require Import List String Ascii ZArith Bool Arith Lia.
From Stdlib Require Import Permutation Sorted DecimalString.
From Stdlib Require DecimalNat DecimalFacts.
Import ListNotations.

Local Open Scope string_scope.
Local Open Scope list_scope.

Set Warnings "-register-all".

(** ** Exceptions *)

Inductive exn : Type :=
| JSONDecodeError   (* json.load on a file that is not JSON *)
| TypeError         (* hashing a list or a dict *)
| OSError.          (* open(..., "w") on a path that cannot be written *)

Inductive result (A : Type) : Type :=
| Ok (a : A)
| Raise (e : exn).

Arguments Ok {A} a.
Arguments Raise {A} e.

Definition bind {A B : Type} (m : result A) (k : A -> result B) : result B :=
  match m with
  | Ok a => k a
  | Raise e => Raise e
  end.

Notation "x <- m ;; k" := (bind m (fun x => k))
  (at level 61, m at next level, right associativity).

(** ** JSON values as [json.load] returns them

    Numbers are the integer ones; a number with a fraction or an exponent
    (a Python float) is not represented. *)

Inductive json : Type :=
| JNull
| JBool (b : bool)
| JInt (n : Z)
| JStr (s : string)
| JArr (items : list json)
| JObj (members : list (string * json)).

(** A Python dict with string keys, in insertion order. *)
Definition dict : Type := list (string * json).

Fixpoint dict_get (k : string) (d : dict) : option json :=
  match d with
  | [] => None
  | (k', v) :: rest => if String.eqb k k' then Some v else dict_get k rest
  end.

(** [d.get(k, default)]; [d.get(k)] is [get_default k JNull d]. *)
Definition get_default (k : string) (default : json) (d : dict) : json :=
  match dict_get k d with
  | Some v => v
  | None => default
  end.

(** [hash(v)] raises TypeError on a list and on a dict, and on nothing else
    that JSON produces. *)
Definition hashable (v : json) : bool :=
  match v with
  | JArr _ | JObj _ => false
  | _ => true
  end.

(** Python's [==] between two hashable JSON values: [True == 1] and
    [False == 0], strings and None only equal themselves. *)
Definition py_eq (a b : json) : bool :=
  match a, b with
  | JNull, JNull => true
  | JStr s, JStr t => String.eqb s t
  | JBool x, JBool y => Bool.eqb x y
  | JInt n, JInt m => Z.eqb n m
  | JBool x, JInt m => Z.eqb (if x then 1 else 0) m
  | JInt n, JBool y => Z.eqb n (if y then 1 else 0)
  | _, _ => false
  end.

(** ** [list.sort(key=...)]

    Python calls [key] once on every element, in order, before it compares
    anything; an exception there leaves the sort.  The keys are then compared
    with [<] and the sort is stable.  A stable sort has one possible result,
    so the insertion below stands for it. *)

Section Sort.
Context {A : Type}.

Fixpoint decorate (key : A -> result Z) (l : list A) : result (list (Z * A)) :=
  match l with
  | [] => Ok []
  | x :: rest =>
      k <- key x ;;
      r <- decorate key rest ;;
      Ok ((k, x) :: r)
  end.

Fixpoint insert (x : Z * A) (l : list (Z * A)) : list (Z * A) :=
  match l with
  | [] => [x]
  | y :: rest =>
      if (fst y <? fst x)%Z then y :: insert x rest else x :: y :: rest
  end.

Fixpoint isort (l : list (Z * A)) : list (Z * A) :=
  match l with
  | [] => []
  | x :: rest => insert x (isort rest)
  end.

Definition list_sort (key : A -> result Z) (l : list A) : result (list A) :=
  kl <- decorate key l ;;
  Ok (map snd (isort kl)).
(** The order between decorated elements, and the test of an element's
    key, for the statements about the sort. *)
Definition key_le (p q : Z * A) : Prop := (fst p <= fst q)%Z.

Definition has_key (key : A -> result Z) (r : Z) (x : A) : bool :=
  match key x with
  | Ok k => (k =? r)%Z
  | Raise _ => false
  end.
End Sort.

(** ** Findings and reports *)

(** A finding after line 30: [fields] are the members of the object read from
    the report, [agent] is the value stored under the key "agent" (which
    replaces a member of that name, if the report had one). *)
Record finding : Type := {
  agent : string;
  fields : dict
}.

(** A parsed report: a JSON object whose "findings" member, when there is
    one, is an array of objects.  [members] are the other members. *)
Record report : Type := {
  members : dict;
  findings : option (list dict)
}.

Inductive file : Type :=
| Missing                   (* os.path.exists is False *)
| Malformed                 (* the file exists, json.load raises *)
| Parsed (data : report).

(** ** Paths *)

Definition ends_with_sep (s : string) : bool :=
  match get (String.length s - 1) s with
  | Some c => Ascii.eqb c "/"%char
  | None => false
  end.

(** [os.path.join(a, b)] on POSIX. *)
Definition path_join (a b : string) : string :=
  if prefix "/" b then b
  else if (String.eqb a "" || ends_with_sep a)%bool then a ++ b
  else a ++ "/" ++ b.

(** ** The run's inputs *)

Record world : Type := {
  run_dir : string;          (* sys.argv[1] *)
  run_id : string;           (* sys.argv[2] *)
  session_name : string;     (* sys.argv[3] *)
  plan_path : string;        (* sys.argv[4] *)
  now : string;              (* datetime.now().isoformat() *)
  disk : string -> file;     (* what is at a path when it is read *)
  writable : string -> bool  (* whether open(path, "w") succeeds *)
}.

Definition files (w : world) : list (string * string) :=
  [ ("logic", path_join (run_dir w) "agent-logic.json");
    ("code_quality", path_join (run_dir w) "agent-code-quality.json");
    ("silent_failure", path_join (run_dir w) "agent-silent-failure.json");
    ("testing_static", path_join (run_dir w) "agent-testing-static.json") ].

(** ** Lines 21-33: reading the reports *)

(** [agents[key] = value] on a dict in insertion order. *)
Fixpoint agents_set (key : string) (v : report) (agents : list (string * report))
  : list (string * report) :=
  match agents with
  | [] => [(key, v)]
  | (k, old) :: rest =>
      if String.eqb key k then (k, v) :: rest
      else (k, old) :: agents_set key v rest
  end.

Fixpoint agents_get (key : string) (agents : list (string * report))
  : option report :=
  match agents with
  | [] => None
  | (k, v) :: rest => if String.eqb key k then Some v else agents_get key rest
  end.

Definition placeholder (key : string) : report :=
  {| members := [("agent", JStr key); ("status", JStr "pending")];
     findings := Some [] |}.

(** [data.get("findings", [])] *)
Definition findings_of (data : report) : list dict :=
  match findings data with
  | Some l => l
  | None => []
  end.

(** [item = dict(item); item["agent"] = key] *)
Definition tag (key : string) (item : dict) : finding :=
  {| agent := key; fields := item |}.

Fixpoint load (disk : string -> file) (fl : list (string * string))
    (agents : list (string * report)) (all_findings : list finding)
  : result (list (string * report) * list finding) :=
  match fl with
  | [] => Ok (agents, all_findings)
  | (key, fpath) :: rest =>
      match disk fpath with
      | Parsed data =>
          load disk rest (agents_set key data agents)
               (all_findings ++ map (tag key) (findings_of data))
      | Malformed => Raise JSONDecodeError
      | Missing =>
          load disk rest (agents_set key (placeholder key) agents) all_findings
      end
  end.

(** ** Lines 35-36: the severity sort *)

Definition severity_order : list (string * Z) :=
  [("Alta", 0%Z); ("Media", 1%Z); ("Baja", 2%Z)].

Fixpoint order_lookup (s : string) (d : list (string * Z)) : option Z :=
  match d with
  | [] => None
  | (k, r) :: rest => if String.eqb s k then Some r else order_lookup s rest
  end.

(** [severity_order.get(v, default)]: the lookup hashes [v] first; the keys
    of the dict are strings, so only a string can be found. *)
Definition severity_order_get (v : json) (default : Z) : result Z :=
  if hashable v then
    match v with
    | JStr s =>
        match order_lookup s severity_order with
        | Some r => Ok r
        | None => Ok default
        end
    | _ => Ok default
    end
  else Raise TypeError.

(** [lambda x: severity_order.get(x.get("severity", "Baja"), 9)] *)
Definition severity_key (x : finding) : result Z :=
  severity_order_get (get_default "severity" (JStr "Baja") (fields x)) 9.

(** ** Lines 38-52: raw patch candidates *)

Module Raw.
Record t : Type := {
  id : string;
  priority : json;
  source_agent : string;
  change_summary : json;
  risk_if_not_applied : json;
  status : string;
  requires_user_confirmation : bool;
  user_decision : string;
  user_notes : string
}.
End Raw.

(** [str(n)] for the [{idx}] of the f-strings. *)
Definition str (n : nat) : string := NilZero.string_of_uint (Nat.to_uint n).

Definition raw_candidate (idx : nat) (f : finding) : Raw.t :=
  {| Raw.id := "patch-" ++ str idx;
     Raw.priority := get_default "severity" (JStr "Baja") (fields f);
     Raw.source_agent := agent f;
     Raw.change_summary := get_default "recommendation" JNull (fields f);
     Raw.risk_if_not_applied := get_default "risk" JNull (fields f);
     Raw.status := "proposed";
     Raw.requires_user_confirmation := true;
     Raw.user_decision := "deferred";
     Raw.user_notes := "" |}.

(** [enumerate(l, start)] mapped through [raw_candidate]. *)
Fixpoint enumerate_raw (start : nat) (l : list finding) : list Raw.t :=
  match l with
  | [] => []
  | f :: rest => raw_candidate start f :: enumerate_raw (S start) rest
  end.

Definition raw_patch_candidates (all_findings : list finding) : list Raw.t :=
  enumerate_raw 1 (firstn 30 all_findings).

(** ** Lines 54-77: deduplication *)

Module Dedup.
Record t : Type := {
  id : string;
  priority : json;
  change_summary : json;
  risk_if_not_applied : json;
  source_agents : list string;
  status : string;
  requires_user_confirmation : bool;
  user_decision : string;
  user_notes : string
}.
End Dedup.

(** The tuple [(priority, change_summary, risk_if_not_applied)]. *)
Definition key : Type := (json * json * json)%type.

Definition raw_key (p : Raw.t) : key :=
  (Raw.priority p, Raw.change_summary p, Raw.risk_if_not_applied p).

(** A tuple hashes when its three components do. *)
Definition hashable_key (k : key) : bool :=
  let '(a, b, c) := k in (hashable a && hashable b && hashable c)%bool.

Definition key_eqb (k1 k2 : key) : bool :=
  let '(a1, b1, c1) := k1 in
  let '(a2, b2, c2) := k2 in
  (py_eq a1 a2 && py_eq b1 b2 && py_eq c1 c2)%bool.

(** [dedup_map]: a dict in insertion order, keyed by tuples. *)
Definition dedup_map_t : Type := list (key * Dedup.t).

Fixpoint dedup_get (k : key) (m : dedup_map_t) : option Dedup.t :=
  match m with
  | [] => None
  | (k', d) :: rest => if key_eqb k k' then Some d else dedup_get k rest
  end.

(** [x in l] on a list of strings. *)
Fixpoint contains (x : string) (l : list string) : bool :=
  match l with
  | [] => false
  | y :: rest => (String.eqb x y || contains x rest)%bool
  end.

(** Lines 71-72 on the entry found under the key. *)
Definition add_agent (a : string) (d : Dedup.t) : Dedup.t :=
  if contains a (Dedup.source_agents d) then d
  else
    {| Dedup.id := Dedup.id d;
       Dedup.priority := Dedup.priority d;
       Dedup.change_summary := Dedup.change_summary d;
       Dedup.risk_if_not_applied := Dedup.risk_if_not_applied d;
       Dedup.source_agents := Dedup.source_agents d ++ [a];
       Dedup.status := Dedup.status d;
       Dedup.requires_user_confirmation := Dedup.requires_user_confirmation d;
       Dedup.user_decision := Dedup.user_decision d;
       Dedup.user_notes := Dedup.user_notes d |}.

(** [dedup_map[key]["source_agents"].append(...)]: the entry under the first
    equal key is changed in place. *)
Fixpoint dedup_update (k : key) (a : string) (m : dedup_map_t) : dedup_map_t :=
  match m with
  | [] => []
  | (k', d) :: rest =>
      if key_eqb k k' then (k', add_agent a d) :: rest
      else (k', d) :: dedup_update k a rest
  end.

(** Lines 59-69. *)
Definition new_entry (n : nat) (p : Raw.t) : Dedup.t :=
  {| Dedup.id := "patch-dedup-" ++ str (n + 1);
     Dedup.priority := Raw.priority p;
     Dedup.change_summary := Raw.change_summary p;
     Dedup.risk_if_not_applied := Raw.risk_if_not_applied p;
     Dedup.source_agents := [Raw.source_agent p];
     Dedup.status := "proposed";
     Dedup.requires_user_confirmation := true;
     Dedup.user_decision := "deferred";
     Dedup.user_notes := "" |}.

(** One turn of the loop of line 56.  [key not in dedup_map] hashes the
    tuple first. *)
Definition dedup_step (m : dedup_map_t) (p : Raw.t) : result dedup_map_t :=
  let k := raw_key p in
  if hashable_key k then
    match dedup_get k m with
    | None => Ok (m ++ [(k, new_entry (List.length m) p)])
    | Some _ => Ok (dedup_update k (Raw.source_agent p) m)
    end
  else Raise TypeError.

Fixpoint dedup_loop (m : dedup_map_t) (raw : list Raw.t) : result dedup_map_t :=
  match raw with
  | [] => Ok m
  | p :: rest =>
      m' <- dedup_step m p ;;
      dedup_loop m' rest
  end.

(** [lambda x: severity_order.get(x.get("priority", "Baja"), 9)]; an entry
    of [dedup_map] always has the key "priority". *)
Definition priority_key (x : Dedup.t) : result Z :=
  severity_order_get (Dedup.priority x) 9.

(** Lines 55-77, from the raw candidates to the sorted list. *)
Definition deduplicated_patch_candidates (raw : list Raw.t)
  : result (list Dedup.t) :=
  dedup_map <- dedup_loop [] raw ;;
  list_sort priority_key (map snd dedup_map).

(** ** Lines 79-110: the two documents *)

Module Slot.
Record t : Type := {
  patch_id : string;
  user_decision : string;
  user_notes : string;
  approved_by : string;
  approved_at : string
}.
End Slot.

Module Template.
Record t : Type := {
  run_id : string;
  decisions : list Slot.t
}.
End Template.

Definition decision (p : Dedup.t) : Slot.t :=
  {| Slot.patch_id := Dedup.id p;
     Slot.user_decision := "deferred";
     Slot.user_notes := "";
     Slot.approved_by := "";
     Slot.approved_at := "" |}.

Definition confirmation_template (w : world) (dedup : list Dedup.t) : Template.t :=
  {| Template.run_id := run_id w;
     Template.decisions := map decision dedup |}.

Module Rules.
Record t : Type := {
  allowed_user_decisions : list string;
  default : string;
  requires_user_confirmation : bool
}.
End Rules.

Module Handoff.
Record t : Type := {
  schema_version : string;
  handoff_version : string;
  generated_at : string;
  run_id : string;
  session_name : string;
  plan_path : string;
  agent_outputs : list (string * string);
  findings : list finding;
  raw_patch_candidates : list Raw.t;
  deduplicated_patch_candidates : list Dedup.t;
  decision_rules : Rules.t;
  next_step_for_parent_agent : string
}.
End Handoff.

Definition handoff (w : world) (all_findings : list finding)
    (raw : list Raw.t) (dedup : list Dedup.t) : Handoff.t :=
  {| Handoff.schema_version := "2.0";
     Handoff.handoff_version := "2.0";
     Handoff.generated_at := now w;
     Handoff.run_id := run_id w;
     Handoff.session_name := session_name w;
     Handoff.plan_path := plan_path w;
     Handoff.agent_outputs := files w;
     Handoff.findings := all_findings;
     Handoff.raw_patch_candidates := raw;
     Handoff.deduplicated_patch_candidates := dedup;
     Handoff.decision_rules :=
       {| Rules.allowed_user_decisions := ["approved"; "rejected"; "deferred"];
          Rules.default := "deferred";
          Rules.requires_user_confirmation := true |};
     Handoff.next_step_for_parent_agent :=
       "Presentar deduplicated_patch_candidates al usuario, capturar user_decision por patch y aplicar solo approved." |}.

(** ** The script *)

(** Everything the script holds in memory when it reaches line 112. *)
Record memory : Type := {
  m_agents : list (string * report);
  m_handoff : Handoff.t;
  m_confirmation_template : Template.t
}.

(** Lines 21-110. *)
Definition build (w : world) : result memory :=
  loaded <- load (disk w) (files w) [] [] ;;
  let '(agents, all_findings) := loaded in
  all_findings <- list_sort severity_key all_findings ;;
  let raw := raw_patch_candidates all_findings in
  dedup <- deduplicated_patch_candidates raw ;;
  Ok {| m_agents := agents;
        m_handoff := handoff w all_findings raw dedup;
        m_confirmation_template := confirmation_template w dedup |}.

Inductive document : Type :=
| HandoffDoc (h : Handoff.t)
| TemplateDoc (t : Template.t).

(** What a run leaves: the files it wrote, oldest first, and the exception
    that ended it, if one did. *)
Record outcome : Type := {
  written : list (string * document);
  raised : option exn
}.

Definition handoff_path (w : world) : string :=
  path_join (run_dir w) "handoff.json".

Definition confirmation_path (w : world) : string :=
  path_join (run_dir w) "patch-confirmation-template.json".

(** Lines 21-118. *)
Definition run (w : world) : outcome :=
  match build w with
  | Raise e => {| written := []; raised := Some e |}
  | Ok m =>
      if writable w (handoff_path w) then
        let first := (handoff_path w, HandoffDoc (m_handoff m)) in
        if writable w (confirmation_path w) then
          {| written :=
               [first;
                (confirmation_path w, TemplateDoc (m_confirmation_template m))];
             raised := None |}
        else {| written := [first]; raised := Some OSError |}
      else {| written := []; raised := Some OSError |}
  end.

(** * Vocabulary of the statements *)

(** The three severities that [severity_order] ranks. *)
Definition known (v : json) : Prop :=
  v = JStr "Alta" \/ v = JStr "Media" \/ v = JStr "Baja".

(** The keys of [files], in the order the loop of line 23 visits them. *)
Definition agent_keys : list string :=
  ["logic"; "code_quality"; "silent_failure"; "testing_static"].

(** What one entry of [files] adds to [all_findings]. *)
Definition contribution (disk : string -> file) (entry : string * string)
  : list finding :=
  match disk (snd entry) with
  | Parsed data => map (tag (fst entry)) (findings_of data)
  | _ => []
  end.

(** [all_findings] at line 34: agent after agent, each report in its own
    order. *)
Definition aggregated (w : world) : list finding :=
  flat_map (contribution (disk w)) (files w).

(** What [agents] holds for one entry of [files]. *)
Definition agent_entry (disk : string -> file) (entry : string * string)
  : report :=
  match disk (snd entry) with
  | Parsed data => data
  | _ => placeholder (fst entry)
  end.

(** The key a deduplicated candidate was stored under. *)
Definition dedup_key (d : Dedup.t) : key :=
  (Dedup.priority d, Dedup.change_summary d, Dedup.risk_if_not_applied d).

(** The raw candidates that fall under a key. *)
Definition under (k : key) (raw : list Raw.t) : list Raw.t :=
  filter (fun p => key_eqb (raw_key p) k) raw.

(** The distinct values of a list, each at its first occurrence. *)
Fixpoint distinct (l : list string) : list string :=
  match l with
  | [] => []
  | x :: rest => x :: filter (fun y => negb (String.eqb x y)) (distinct rest)
  end.

(** A finding none of whose members is a list or a dict. *)
Definition plain (f : finding) : Prop :=
  forall k v, In (k, v) (fields f) -> hashable v = true.

(** No key of the list equals, for Python, a key before it. *)
Definition fresh_keys (ks : list key) : Prop :=
  ForallOrdPairs (fun k k' => key_eqb k' k = false) ks.

(** [dedup_update] written as a change of every entry under an equal key;
    on a map with [fresh_keys] there is one such entry at most. *)
Definition update_all (k : key) (a : string) (m : dedup_map_t) : dedup_map_t :=
  map (fun kd => if key_eqb k (fst kd) then (fst kd, add_agent a (snd kd))
                 else kd) m.

(** What holds of [dedup_map] when the loop of line 56 has gone through the
    raw candidates [seen]. *)
Record invariant (seen : list Raw.t) (m : dedup_map_t) : Prop := {
  inv_hashable : Forall (fun q => hashable_key (raw_key q) = true) seen;
  inv_keys : Forall (fun kd => fst kd = dedup_key (snd kd)
                               /\ hashable_key (fst kd) = true) m;
  inv_fresh : fresh_keys (map fst m);
  inv_covered :
    Forall (fun q => Exists (fun k => key_eqb (raw_key q) k = true)
                            (map fst m)) seen;
  inv_first :
    Forall (fun kd => exists q rest, under (fst kd) seen = q :: rest
                                     /\ raw_key q = fst kd) m;
  inv_agents :
    Forall (fun kd => Dedup.source_agents (snd kd)
                      = distinct (map Raw.source_agent (under (fst kd) seen))) m
}.

(** The member "agent_outputs" as [json.dump] writes it, and the member
    "status" of a value, when the value is an object that has one. *)
Definition agent_outputs_json (h : Handoff.t) : dict :=
  map (fun entry => (fst entry, JStr (snd entry))) (Handoff.agent_outputs h).

Definition status_of (v : json) : option json :=
  match v with
  | JObj d => dict_get "status" d
  | _ => None
  end.

(** The entries of [dedup_map] carry the ids patch-dedup-1, patch-dedup-2,
    ... in the order of the map. *)
Definition numbered_ids (m : dedup_map_t) : Prop :=
  map (fun kd => Dedup.id (snd kd)) m
  = map (fun n => "patch-dedup-" ++ str n)%string (seq 1 (List.length m)).

(** A candidate on which nothing has been decided: the four members that
    lines 47-50 and 65-68 set. *)
Definition undecided (d : Dedup.t) : Prop :=
  Dedup.status d = "proposed"
  /\ Dedup.requires_user_confirmation d = true
  /\ Dedup.user_decision d = "deferred"
  /\ Dedup.user_notes d = "".

(** The rank of a priority, and the order of two elements by rank when both
    have one. *)
Definition rank (v : json) : result Z := severity_order_get v 9.

Definition rank_le {A : Type} (key : A -> result Z) (a b : A) : Prop :=
  forall ra rb, key a = Ok ra -> key b = Ok rb -> (ra <= rb)%Z.

(** The priorities of the entries of [dedup_map], in the order of the map. *)
Definition priorities (m : dedup_map_t) : list json :=
  map (fun kd => Dedup.priority (snd kd)) m.

(** The value [x.get("severity", "Baja")] of a finding. *)
Definition severity_of (f : finding) : json :=
  get_default "severity" (JStr "Baja") (fields f).

(** The names of the six files of a run, and what [os.path.join] puts
    before a name that does not start with "/". *)
Definition file_names : list string :=
  ["agent-logic.json"; "agent-code-quality.json"; "agent-silent-failure.json";
   "agent-testing-static.json"; "handoff.json";
   "patch-confirmation-template.json"].

Definition all_paths (w : world) : list string :=
  map snd (files w) ++ [handoff_path w; confirmation_path w].

(** Whether the three values that lines 36 and 57 hash for a finding can
    be hashed. *)
Definition hashable_fields (f : finding) : bool :=
  (hashable (severity_of f)
   && hashable (get_default "recommendation" JNull (fields f))
   && hashable (get_default "risk" JNull (fields f)))%bool.

(** The run that ends without a document written. *)
Definition aborted (e : exn) : outcome :=
  {| written := []; raised := Some e |}.

(** ** Sample runs *)

Definition item (severity : option json) (recommendation risk : string) : dict :=
  match severity with
  | Some v => [("severity", v)]
  | None => []
  end ++ [("recommendation", JStr recommendation); ("risk", JStr risk)].

Definition logic_report : report :=
  {| members := [("agent", JStr "logic"); ("status", JStr "done")];
     findings :=
       Some [ item (Some (JStr "Baja")) "rename the helper" "confusing name";
              item None "rename the helper" "confusing name";
              item (Some (JStr "Alta")) "check the index" "out of range read";
              item (Some (JStr "Desconocida")) "add a log line" "silent skip" ] |}.

Definition code_quality_report : report :=
  {| members := [("agent", JStr "code_quality")];
     findings :=
       Some [ item (Some (JStr "Alta")) "check the index" "out of range read";
              item (Some JNull) "split the module" "hard to review";
              item (Some (JStr "Media")) "add a test" "regression" ] |}.

(** A finding without the member "severity", one with "Baja", one with
    null. *)
Definition no_severity : finding :=
  tag "logic" (item None "rename the helper" "confusing name").

Definition explicit_baja : finding :=
  tag "code_quality" (item (Some (JStr "Baja")) "rename the helper" "confusing name").


(** The raw candidates of two findings with the same severity "Alta",
    recommendation and risk, one of agent logic and one of agent
    code_quality, around a third finding of agent logic. *)
Definition merge_scenario : list Raw.t :=
  raw_patch_candidates
    [ tag "logic" (item (Some (JStr "Alta")) "check the index" "out of range read");
      tag "logic" (item (Some (JStr "Alta")) "close the file" "leak");
      tag "code_quality"
          (item (Some (JStr "Alta")) "check the index" "out of range read");
      tag "logic" (item (Some (JStr "Alta")) "check the index" "out of range read") ].

(** Two of the four reports are on disk. *)
Definition two_reports : world :=
  {| run_dir := "run"; run_id := "audit-1"; session_name := "s";
     plan_path := "plan.md"; now := "2026-02-27T10:00:00";
     disk := fun path =>
       if String.eqb path "run/agent-logic.json" then Parsed logic_report
       else if String.eqb path "run/agent-code-quality.json"
            then Parsed code_quality_report
            else Missing;
     writable := fun _ => true |}.

(** One report with 35 findings. *)
Definition numbered (i : nat) : dict :=
  item (Some (JStr (if Nat.even i then "Baja" else "Alta"))) (str i) "risk".

Definition many_findings : world :=
  {| run_dir := "run/"; run_id := "audit-2"; session_name := "s";
     plan_path := "plan.md"; now := "2026-02-27T11:00:00";
     disk := fun path =>
       if String.eqb path "run/agent-testing-static.json"
       then Parsed {| members := []; findings := Some (map numbered (seq 1 35)) |}
       else Missing;
     writable := fun _ => true |}.

(** The second report is not JSON. *)
Definition broken_report : world :=
  {| run_dir := "run"; run_id := "audit-3"; session_name := "s";
     plan_path := "plan.md"; now := "2026-02-27T12:00:00";
     disk := fun path =>
       if String.eqb path "run/agent-logic.json" then Parsed logic_report
       else if String.eqb path "run/agent-code-quality.json" then Malformed
            else Missing;
     writable := fun _ => true |}.

(** No report at all. *)
Definition no_reports : world :=
  {| run_dir := ""; run_id := "audit-4"; session_name := "s";
     plan_path := "plan.md"; now := "2026-02-27T13:00:00";
     disk := fun _ => Missing;
     writable := fun _ => true |}.

(** A finding whose recommendation is a list, of a severity that no rank
    knows; after 30 numbered findings, and alone. *)
Definition steps_item : dict :=
  [("severity", JStr "Otra");
   ("recommendation", JArr [JStr "step 1"; JStr "step 2"]);
   ("risk", JStr "unclear")].

Definition list_beyond_cap : world :=
  {| run_dir := "run"; run_id := "audit-5"; session_name := "s";
     plan_path := "plan.md"; now := "2026-02-27T14:00:00";
     disk := fun path =>
       if String.eqb path "run/agent-logic.json"
       then Parsed {| members := [];
                      findings := Some (steps_item :: map numbered (seq 1 30)) |}
       else Missing;
     writable := fun _ => true |}.

Definition list_within_cap : world :=
  {| run_dir := "run"; run_id := "audit-6"; session_name := "s";
     plan_path := "plan.md"; now := "2026-02-27T15:00:00";
     disk := fun path =>
       if String.eqb path "run/agent-logic.json"
       then Parsed {| members := []; findings := Some [steps_item] |}
       else Missing;
     writable := fun _ => true |}.

(** * Facts *)

(** ** The result monad *)

Lemma bind_Ok {A B : Type} (m : result A) (k : A -> result B) (b : B) :
  bind m k = Ok b -> exists a, m = Ok a /\ k a = Ok b.
Proof.
  destruct m as [a | e]; simpl; intros H.
  - exists a; split; [reflexivity | exact H].
  - discriminate H.
Qed.

Ltac bind_inv H :=
  let a := fresh "a" in
  let Ha := fresh "Hbind" in
  apply bind_Ok in H; destruct H as [a [Ha H]].

(** ** The stable sort *)

Section SortFacts.
Context {A : Type}.

Lemma insert_perm (x : Z * A) (l : list (Z * A)) : Permutation (x :: l) (insert x l).
Proof.
  induction l as [| y l IH]; simpl.
  - apply Permutation_refl.
  - destruct (fst y <? fst x)%Z.
    + apply perm_trans with (y :: x :: l); [apply perm_swap |].
      apply perm_skip, IH.
    + apply Permutation_refl.
Qed.

Lemma isort_perm (l : list (Z * A)) : Permutation l (isort l).
Proof.
  induction l as [| x l IH]; simpl.
  - apply perm_nil.
  - apply perm_trans with (x :: isort l).
    + apply perm_skip, IH.
    + apply insert_perm.
Qed.

Lemma insert_sorted (x : Z * A) (l : list (Z * A)) :
  StronglySorted key_le l -> StronglySorted key_le (insert x l).
Proof.
  induction l as [| y l IH]; simpl; intros Hs.
  - constructor; [constructor | constructor].
  - apply StronglySorted_inv in Hs. destruct Hs as [Hl Hy].
    destruct (fst y <? fst x)%Z eqn:E.
    + constructor; [apply IH, Hl |].
      apply Z.ltb_lt in E.
      assert (Hall : Forall (key_le y) (x :: l)).
      { constructor; [unfold key_le; lia | exact Hy]. }
      exact (Permutation_Forall (insert_perm x l) Hall).
    + apply Z.ltb_ge in E.
      constructor; [constructor; assumption |].
      constructor; [exact E |].
      rewrite Forall_forall in Hy |- *.
      intros z Hz. specialize (Hy z Hz). unfold key_le in *. lia.
Qed.

Lemma isort_sorted (l : list (Z * A)) : StronglySorted key_le (isort l).
Proof.
  induction l as [| x l IH]; simpl.
  - constructor.
  - apply insert_sorted, IH.
Qed.

(** Elements of one key keep their order: the sort is stable. *)
Lemma insert_filter (r : Z) (x : Z * A) (l : list (Z * A)) :
  filter (fun p => (fst p =? r)%Z) (insert x l)
  = filter (fun p => (fst p =? r)%Z) (x :: l).
Proof.
  induction l as [| y l IH]; simpl; [reflexivity |].
  destruct (fst y <? fst x)%Z eqn:E; [| reflexivity].
  simpl. rewrite IH. simpl.
  apply Z.ltb_lt in E.
  destruct (fst x =? r)%Z eqn:Ex; [| reflexivity].
  apply Z.eqb_eq in Ex.
  assert (Hy : (fst y =? r)%Z = false) by (apply Z.eqb_neq; lia).
  rewrite Hy. reflexivity.
Qed.

Lemma isort_filter (r : Z) (l : list (Z * A)) :
  filter (fun p => (fst p =? r)%Z) (isort l)
  = filter (fun p => (fst p =? r)%Z) l.
Proof.
  induction l as [| x l IH]; simpl; [reflexivity |].
  rewrite insert_filter. simpl. rewrite IH. reflexivity.
Qed.

Lemma sorted_nth_error (R : Z * A -> Z * A -> Prop) (l : list (Z * A)) :
  StronglySorted R l ->
  forall i j a b, i < j ->
    nth_error l i = Some a -> nth_error l j = Some b -> R a b.
Proof.
  induction 1 as [| y l Hs IH Hall]; intros i j a b Hij Hi Hj.
  - destruct i; discriminate Hi.
  - destruct j as [| j]; [lia |].
    simpl in Hj. destruct i as [| i]; simpl in Hi.
    + injection Hi as <-. rewrite Forall_forall in Hall.
      apply Hall. eapply nth_error_In; eassumption.
    + apply (IH i j); [lia | assumption | assumption].
Qed.

Variable key : A -> result Z.

Lemma decorate_snd (l : list A) (kl : list (Z * A)) :
  decorate key l = Ok kl -> map snd kl = l.
Proof.
  revert kl; induction l as [| x l IH]; simpl; intros kl H.
  - injection H as <-. reflexivity.
  - bind_inv H. bind_inv H. injection H as <-. simpl.
    rewrite (IH _ Hbind0). reflexivity.
Qed.

Lemma decorate_keys (l : list A) (kl : list (Z * A)) :
  decorate key l = Ok kl -> Forall (fun p => key (snd p) = Ok (fst p)) kl.
Proof.
  revert kl; induction l as [| x l IH]; simpl; intros kl H.
  - injection H as <-. constructor.
  - bind_inv H. bind_inv H. injection H as <-.
    constructor; [exact Hbind | apply IH, Hbind0].
Qed.

Lemma decorate_total (l : list A) :
  Forall (fun x => exists k, key x = Ok k) l ->
  exists kl, decorate key l = Ok kl.
Proof.
  induction 1 as [| x l [k Hk] _ [kl IH]]; simpl.
  - exists []. reflexivity.
  - exists ((k, x) :: kl). rewrite Hk, IH. reflexivity.
Qed.

Lemma decorate_raises (l : list A) (x : A) (e : exn) :
  In x l -> key x = Raise e -> exists e', decorate key l = Raise e'.
Proof.
  induction l as [| y l IH]; simpl; [intros [] |].
  intros [-> | Hin] Hx.
  - rewrite Hx. exists e. reflexivity.
  - destruct (key y) as [k | e1]; simpl; [| exists e1; reflexivity].
    destruct (IH Hin Hx) as [e' ->]. exists e'. reflexivity.
Qed.

Section Sorted.
Variables (l s : list A).
Hypothesis Hsort : list_sort key l = Ok s.

Lemma list_sort_perm : Permutation l s.
Proof.
  unfold list_sort in Hsort. bind_inv Hsort. injection Hsort as <-.
  rewrite <- (decorate_snd _ _ Hbind).
  apply Permutation_map, isort_perm.
Qed.

Lemma list_sort_length : List.length s = List.length l.
Proof. symmetry. apply Permutation_length, list_sort_perm. Qed.

Lemma list_sort_key_defined (x : A) :
  In x s -> exists k, key x = Ok k.
Proof.
  unfold list_sort in Hsort. bind_inv Hsort. injection Hsort as <-.
  intros Hin. apply in_map_iff in Hin. destruct Hin as [p [<- Hp]].
  pose proof (decorate_keys _ _ Hbind) as Hk.
  apply (Permutation_Forall (isort_perm a)) in Hk.
  rewrite Forall_forall in Hk. exists (fst p). apply Hk, Hp.
Qed.

Lemma list_sort_ordered (i j : nat) (a b : A) (ra rb : Z) :
  nth_error s i = Some a -> nth_error s j = Some b ->
  key a = Ok ra -> key b = Ok rb -> (ra < rb)%Z -> i < j.
Proof.
  unfold list_sort in Hsort. bind_inv Hsort. injection Hsort as <-.
  rename a0 into kl.
  intros Hi Hj Ha Hb Hlt.
  rewrite nth_error_map in Hi, Hj.
  destruct (nth_error (isort kl) i) as [p |] eqn:Ei; [| discriminate Hi].
  destruct (nth_error (isort kl) j) as [q |] eqn:Ej; [| discriminate Hj].
  simpl in Hi, Hj. injection Hi as <-. injection Hj as <-.
  pose proof (decorate_keys _ _ Hbind) as Hk.
  apply (Permutation_Forall (isort_perm kl)) in Hk.
  rewrite Forall_forall in Hk.
  pose proof (Hk p (nth_error_In _ _ Ei)) as Hp.
  pose proof (Hk q (nth_error_In _ _ Ej)) as Hq.
  rewrite Ha in Hp. rewrite Hb in Hq.
  injection Hp as Hp. injection Hq as Hq.
  destruct (Nat.lt_trichotomy i j) as [Hlt' | [Heq | Hgt]].
  - exact Hlt'.
  - subst j. rewrite Ei in Ej. injection Ej as ->. lia.
  - pose proof (sorted_nth_error key_le _ (isort_sorted kl)
                  j i q p Hgt Ej Ei) as Hle.
    unfold key_le in Hle. lia.
Qed.

Lemma list_sort_stable (r : Z) :
  filter (has_key key r) s = filter (has_key key r) l.
Proof.
  unfold list_sort in Hsort. bind_inv Hsort. injection Hsort as <-.
  rename a into kl.
  pose proof (decorate_keys _ _ Hbind) as Hk.
  rewrite <- (decorate_snd _ _ Hbind).
  rewrite !filter_map_swap.
  assert (Hext : forall m : list (Z * A),
             Forall (fun p => key (snd p) = Ok (fst p)) m ->
             filter (fun p => has_key key r (snd p)) m
             = filter (fun p => (fst p =? r)%Z) m).
  { intros m Hm. apply filter_ext_in. intros p Hp.
    rewrite Forall_forall in Hm. unfold has_key.
    rewrite (Hm p Hp). reflexivity. }
  rewrite (Hext kl Hk).
  rewrite (Hext (isort kl) (Permutation_Forall (isort_perm kl) Hk)).
  rewrite isort_filter. reflexivity.
Qed.
End Sorted.

Lemma list_sort_total (l : list A) :
  Forall (fun x => exists k, key x = Ok k) l ->
  exists s, list_sort key l = Ok s.
Proof.
  intros H. destruct (decorate_total l H) as [kl Hkl].
  unfold list_sort. rewrite Hkl. simpl. eexists. reflexivity.
Qed.
(** Sorting a sorted list changes nothing. *)
Lemma isort_sorted_id (l : list (Z * A)) :
  StronglySorted key_le l -> isort l = l.
Proof.
  induction 1 as [| x l Hs IH Hall]; simpl; [reflexivity |].
  rewrite IH. destruct l as [| y l]; simpl; [reflexivity |].
  apply Forall_inv in Hall. unfold key_le in Hall.
  destruct (fst y <? fst x)%Z eqn:E; [| reflexivity].
  apply Z.ltb_lt in E. lia.
Qed.

Lemma decorate_of_keys (kl : list (Z * A)) :
  Forall (fun p => key (snd p) = Ok (fst p)) kl ->
  decorate key (map snd kl) = Ok kl.
Proof.
  induction 1 as [| [k x] kl Hk _ IH]; simpl; [reflexivity |].
  simpl in Hk. rewrite Hk, IH. reflexivity.
Qed.

Lemma list_sort_idempotent (l s : list A) :
  list_sort key l = Ok s -> list_sort key s = Ok s.
Proof.
  unfold list_sort. intros H. bind_inv H. injection H as <-.
  rename a into kl.
  pose proof (decorate_keys _ _ Hbind) as Hk.
  apply (Permutation_Forall (isort_perm kl)) in Hk.
  rewrite (decorate_of_keys _ Hk). simpl.
  rewrite (isort_sorted_id _ (isort_sorted kl)). reflexivity.
Qed.
End SortFacts.

(** ** Severity ranks *)

Lemma severity_order_get_known (v : json) :
  known v -> exists r, severity_order_get v 9 = Ok r /\ (0 <= r <= 2)%Z.
Proof.
  intros [-> | [-> | ->]]; simpl; eexists; (split; [reflexivity | lia]).
Qed.

Lemma severity_order_get_unknown (v : json) :
  hashable v = true -> ~ known v -> severity_order_get v 9 = Ok 9%Z.
Proof.
  unfold known. intros Hh Hk.
  destruct v as [| b | n | s | l | d]; try reflexivity; try discriminate Hh.
  unfold severity_order_get; simpl.
  destruct (String.eqb_spec s "Alta") as [-> | _]; [tauto |].
  destruct (String.eqb_spec s "Media") as [-> | _]; [tauto |].
  destruct (String.eqb_spec s "Baja") as [-> | _]; [tauto |].
  reflexivity.
Qed.

Lemma severity_order_get_hashable (v : json) (r : Z) :
  severity_order_get v 9 = Ok r -> hashable v = true.
Proof.
  unfold severity_order_get. destruct (hashable v); [reflexivity | discriminate].
Qed.

Lemma severity_order_get_unhashable (v : json) :
  hashable v = false -> severity_order_get v 9 = Raise TypeError.
Proof. unfold severity_order_get. intros ->. reflexivity. Qed.

Lemma severity_key_absent (f : finding) :
  dict_get "severity" (fields f) = None -> severity_key f = Ok 2%Z.
Proof.
  intros H. unfold severity_key, get_default. rewrite H. reflexivity.
Qed.

Lemma severity_key_present (f : finding) (v : json) :
  dict_get "severity" (fields f) = Some v ->
  severity_key f = severity_order_get v 9.
Proof.
  intros H. unfold severity_key, get_default. rewrite H. reflexivity.
Qed.

(** ** Reading the reports *)

Lemma load_Ok (disk : string -> file) (fl : list (string * string))
    (agents ag : list (string * report)) (acc fs : list finding) :
  load disk fl agents acc = Ok (ag, fs) ->
  fs = acc ++ flat_map (contribution disk) fl
  /\ ag = fold_left (fun a e => agents_set (fst e) (agent_entry disk e) a)
                    fl agents
  /\ Forall (fun e => disk (snd e) <> Malformed) fl.
Proof.
  revert agents acc.
  induction fl as [| [k path] fl IH]; simpl; intros agents acc H.
  - injection H as <- <-. rewrite app_nil_r. repeat split. constructor.
  - unfold contribution, agent_entry; simpl.
    destruct (disk path) as [| | data] eqn:E; [| discriminate H |];
      apply IH in H; destruct H as [-> [-> Hall]];
      (split;
       [ rewrite <- ?app_assoc; reflexivity
       | split;
         [ reflexivity
         | constructor; [simpl; rewrite E; discriminate | exact Hall] ] ]).
Qed.

Lemma load_total (disk : string -> file) (fl : list (string * string))
    (agents : list (string * report)) (acc : list finding) :
  Forall (fun e => disk (snd e) <> Malformed) fl ->
  exists ag fs, load disk fl agents acc = Ok (ag, fs).
Proof.
  intros Hall. revert agents acc.
  induction Hall as [| [k path] fl Hk _ IH]; simpl; intros agents acc.
  - eexists; eexists; reflexivity.
  - simpl in Hk. destruct (disk path); [apply IH | contradiction | apply IH].
Qed.

Lemma load_malformed (disk : string -> file) (fl : list (string * string))
    (agents : list (string * report)) (acc : list finding) :
  Exists (fun e => disk (snd e) = Malformed) fl ->
  load disk fl agents acc = Raise JSONDecodeError.
Proof.
  intros Hex. revert agents acc.
  induction Hex as [[k path] fl Hk | [k path] fl _ IH]; simpl; intros agents acc.
  - simpl in Hk. rewrite Hk. reflexivity.
  - destruct (disk path); [apply IH | reflexivity | apply IH].
Qed.

(** What a successful [build] went through. *)
Lemma build_Ok (w : world) (m : memory) :
  build w = Ok m ->
  exists agents fs ds,
    load (disk w) (files w) [] [] = Ok (agents, aggregated w)
    /\ list_sort severity_key (aggregated w) = Ok fs
    /\ deduplicated_patch_candidates (raw_patch_candidates fs) = Ok ds
    /\ m = {| m_agents := agents;
              m_handoff := handoff w fs (raw_patch_candidates fs) ds;
              m_confirmation_template := confirmation_template w ds |}.
Proof.
  unfold build. intros H.
  bind_inv H. destruct a as [agents unsorted].
  bind_inv H. rename a into fs.
  bind_inv H. rename a into ds.
  injection H as <-.
  pose proof (load_Ok _ _ _ _ _ _ Hbind) as [Hfs _]. simpl in Hfs.
  fold (aggregated w) in Hfs. subst unsorted.
  exists agents, fs, ds. repeat split; assumption.
Qed.

(** ** The severity sort *)

(** C6: the sort of [all_findings] at line 36 is order-correct and stable.
    The list it sorts is the reports' findings, agent after agent in the
    order of [files] and each report in its own order; when the sort
    returns, the sorted list is a permutation of it, a finding of smaller
    rank stands before every finding of larger rank, and the findings of any
    one rank are in the sorted list in the order they had before the sort.
    The sorted list is the "findings" of the handoff. *)
Theorem severity_sort_ordered_and_stable (w : world) (sorted : list finding) :
  list_sort severity_key (aggregated w) = Ok sorted ->
  Permutation (aggregated w) sorted
  /\ (forall i j f1 f2 r1 r2,
        nth_error sorted i = Some f1 -> nth_error sorted j = Some f2 ->
        severity_key f1 = Ok r1 -> severity_key f2 = Ok r2 ->
        (r1 < r2)%Z -> i < j)
  /\ (forall r,
        filter (has_key severity_key r) sorted
        = filter (has_key severity_key r) (aggregated w))
  /\ (forall f, In f sorted -> exists r, severity_key f = Ok r)
  /\ (forall m, build w = Ok m ->
        load (disk w) (files w) [] [] = Ok (m_agents m, aggregated w)
        /\ Handoff.findings (m_handoff m) = sorted).
Proof.
  intros Hsort.
  split; [exact (list_sort_perm _ _ _ Hsort) |].
  split; [intros i j f1 f2 r1 r2; apply (list_sort_ordered _ _ _ Hsort) |].
  split; [intros r; apply (list_sort_stable _ _ _ Hsort) |].
  split; [intros f; apply (list_sort_key_defined _ _ _ Hsort) |].
  intros m H. apply build_Ok in H.
  destruct H as [agents [fs [ds [Hload [Hsort' [_ ->]]]]]]. simpl.
  rewrite Hsort in Hsort'. injection Hsort' as <-.
  split; [exact Hload | reflexivity].
Qed.

Lemma severity_sort_ordered_and_stable_witness :
  exists sorted,
    list_sort severity_key (aggregated two_reports) = Ok sorted
    /\ Permutation (aggregated two_reports) sorted
    /\ map agent (aggregated two_reports)
       = ["logic"; "logic"; "logic"; "logic";
          "code_quality"; "code_quality"; "code_quality"]
    /\ map severity_key (aggregated two_reports)
       = [Ok 2; Ok 2; Ok 0; Ok 9; Ok 0; Ok 9; Ok 1]%Z
    /\ map agent sorted
       = ["logic"; "code_quality"; "code_quality"; "logic"; "logic"; "logic";
          "code_quality"]
    /\ map severity_key sorted = [Ok 0; Ok 0; Ok 1; Ok 2; Ok 2; Ok 9; Ok 9]%Z.
Proof.
  eexists. split; [reflexivity |]. split.
  - apply (severity_sort_ordered_and_stable two_reports). reflexivity.
  - repeat split; reflexivity.
Defined.

(** ** The agents *)

Lemma load_files (w : world) (agents : list (string * report))
    (fs : list finding) :
  load (disk w) (files w) [] [] = Ok (agents, fs) ->
  agents = map (fun e => (fst e, agent_entry (disk w) e)) (files w)
  /\ fs = aggregated w.
Proof.
  intros H. apply load_Ok in H. destruct H as [Hfs [Hag _]].
  split; [exact Hag | exact Hfs].
Qed.

Lemma contribution_agent (disk : string -> file) (e : string * string)
    (f : finding) :
  In f (contribution disk e) ->
  agent f = fst e /\ exists data, disk (snd e) = Parsed data.
Proof.
  unfold contribution. destruct (disk (snd e)) as [| | data]; try intros [].
  intros Hin. apply in_map_iff in Hin. destruct Hin as [it [<- _]].
  split; [reflexivity | exists data; reflexivity].
Qed.

(** An agent whose file is missing: the placeholder in [agents], and no
    finding of that agent. *)
Lemma missing_entry (w : world) (k path : string) :
  In (k, path) (files w) -> disk w path = Missing ->
  agents_get k (map (fun e => (fst e, agent_entry (disk w) e)) (files w))
  = Some (placeholder k)
  /\ contribution (disk w) (k, path) = []
  /\ (forall f, In f (aggregated w) -> agent f <> k).
Proof.
  intros Hin Hmiss. split; [| split].
  - simpl in Hin.
    destruct Hin as [E | [E | [E | [E | []]]]]; injection E as <- <-;
      simpl; unfold agent_entry; simpl; rewrite Hmiss; reflexivity.
  - unfold contribution. simpl. rewrite Hmiss. reflexivity.
  - intros f Hf Hk. unfold aggregated in Hf.
    apply in_flat_map in Hf. destruct Hf as [e [He Hfe]].
    apply contribution_agent in Hfe. destruct Hfe as [Ha [data Hd]].
    rewrite Hk in Ha. simpl in Hin, He.
    destruct Hin as [E | [E | [E | [E | []]]]]; injection E as <- <-;
      (destruct He as [E' | [E' | [E' | [E' | []]]]]; subst e; simpl in Ha, Hd;
       try discriminate Ha; rewrite Hmiss in Hd; discriminate Hd).
Qed.

(** C2, as the code has it: "agent_outputs" in the handoff has the four
    agent keys, each with the path of that agent's report, whether the file
    exists or not.  The placeholder with status "pending" and no findings is
    what [agents], which is not written, holds for a missing report; and no
    finding of the handoff comes from an agent whose report is missing. *)
Theorem missing_agent_is_pending_in_agents (w : world) (m : memory) :
  build w = Ok m ->
  Handoff.agent_outputs (m_handoff m) = files w
  /\ map fst (Handoff.agent_outputs (m_handoff m)) = agent_keys
  /\ map fst (m_agents m) = agent_keys
  /\ (forall k path,
        In (k, path) (files w) -> disk w path = Missing ->
        agents_get k (m_agents m) = Some (placeholder k)
        /\ dict_get "status" (members (placeholder k)) = Some (JStr "pending")
        /\ findings_of (placeholder k) = []
        /\ (forall f, In f (Handoff.findings (m_handoff m)) -> agent f <> k)).
Proof.
  intros H. apply build_Ok in H.
  destruct H as [agents [fs [ds [Hload [Hsort [_ ->]]]]]]. simpl.
  apply load_files in Hload. destruct Hload as [-> _].
  split; [reflexivity |]. split; [reflexivity |]. split; [reflexivity |].
  intros k path Hin Hmiss.
  destruct (missing_entry w k path Hin Hmiss) as [Hget [_ Hnone]].
  split; [exact Hget |]. split; [reflexivity |]. split; [reflexivity |].
  intros f Hf. apply Hnone.
  apply (Permutation_in f (Permutation_sym (list_sort_perm _ _ _ Hsort))), Hf.
Qed.

Lemma missing_agent_is_pending_in_agents_witness :
  exists m,
    build two_reports = Ok m
    /\ map fst (Handoff.agent_outputs (m_handoff m)) = agent_keys
    /\ agents_get "testing_static" (m_agents m)
       = Some (placeholder "testing_static").
Proof.
  eexists. split; [reflexivity |].
  pose proof (missing_agent_is_pending_in_agents two_reports _ eq_refl)
    as [_ [Hkeys [_ Hmissing]]].
  split; [exact Hkeys |].
  apply (Hmissing "testing_static" "run/agent-testing-static.json").
  - simpl. tauto.
  - reflexivity.
Defined.

(** C2, as the claim states it, fails: in a run with two of the four
    reports, the entry of "agent_outputs" for a missing agent is the path of
    the report, a string; it has no status. *)
Lemma agent_outputs_entry_is_a_path :
  exists m,
    build two_reports = Ok m
    /\ disk two_reports "run/agent-silent-failure.json" = Missing
    /\ dict_get "silent_failure" (agent_outputs_json (m_handoff m))
       = Some (JStr "run/agent-silent-failure.json")
    /\ option_map status_of
         (dict_get "silent_failure" (agent_outputs_json (m_handoff m)))
       <> Some (Some (JStr "pending")).
Proof.
  eexists. split; [reflexivity |]. split; [reflexivity |].
  split; [reflexivity |]. simpl. discriminate.
Qed.

(** ** Malformed and missing reports *)

(** C7: a report that exists and is not JSON ends the run with the
    exception of [json.load] and nothing written.  A report that does not
    exist raises nothing: when no report is malformed the reports load, and
    each missing one leaves the pending placeholder in [agents] and adds no
    finding. *)
Theorem malformed_report_aborts_missing_does_not (w : world) :
  (Exists (fun e => disk w (snd e) = Malformed) (files w) ->
   run w = {| written := []; raised := Some JSONDecodeError |})
  /\ (Forall (fun e => disk w (snd e) <> Malformed) (files w) ->
      exists agents,
        load (disk w) (files w) [] [] = Ok (agents, aggregated w)
        /\ forall k path,
             In (k, path) (files w) -> disk w path = Missing ->
             agents_get k agents = Some (placeholder k)
             /\ dict_get "status" (members (placeholder k))
                = Some (JStr "pending")
             /\ findings_of (placeholder k) = []
             /\ contribution (disk w) (k, path) = []
             /\ (forall f, In f (aggregated w) -> agent f <> k)).
Proof.
  split.
  - intros Hex. unfold run, build.
    rewrite (load_malformed _ _ [] [] Hex). reflexivity.
  - intros Hall.
    destruct (load_total (disk w) (files w) [] [] Hall) as [agents [fs Hload]].
    destruct (load_files w agents fs Hload) as [Hag Hfs]. subst fs.
    exists agents. split; [exact Hload |].
    intros k path Hin Hmiss. subst agents.
    destruct (missing_entry w k path Hin Hmiss) as [Hget [Hc Hnone]].
    repeat split; assumption.
Qed.

Lemma malformed_report_aborts_missing_does_not_witness :
  run broken_report = {| written := []; raised := Some JSONDecodeError |}
  /\ raised (run no_reports) = None
  /\ map fst (written (run no_reports))
     = ["handoff.json"; "patch-confirmation-template.json"]
  /\ exists agents,
       load (disk two_reports) (files two_reports) [] []
       = Ok (agents, aggregated two_reports)
       /\ agents_get "silent_failure" agents
          = Some (placeholder "silent_failure").
Proof.
  split; [| split; [reflexivity | split; [reflexivity |]]].
  - apply (malformed_report_aborts_missing_does_not broken_report).
    simpl. apply Exists_cons_tl, Exists_cons_hd. reflexivity.
  - destruct (malformed_report_aborts_missing_does_not two_reports)
      as [_ Hmissing].
    destruct Hmissing as [agents [Hload Hk]].
    + simpl. repeat constructor; simpl; discriminate.
    + exists agents. split; [exact Hload |].
      apply (Hk "silent_failure" "run/agent-silent-failure.json").
      * simpl. tauto.
      * reflexivity.
Defined.

(** ** Unknown and absent severities *)

Lemma rank_9_after_known {A : Type} (key : A -> result Z) (l s : list A) :
  list_sort key l = Ok s ->
  forall i j a b r,
    nth_error s i = Some a -> nth_error s j = Some b ->
    key a = Ok 9%Z -> key b = Ok r -> (r <= 2)%Z -> j < i.
Proof.
  intros Hsort i j a b r Hi Hj Ha Hb Hr.
  apply (list_sort_ordered key l s Hsort j i b a r 9%Z); try assumption. lia.
Qed.

Lemma sorted_unknown_rank_9 {A : Type} (key : A -> result Z) (l s : list A)
    (a : A) (v : json) :
  list_sort key l = Ok s -> In a s ->
  key a = severity_order_get v 9 -> ~ known v -> key a = Ok 9%Z.
Proof.
  intros Hsort Hin Hkey Hunk.
  destruct (list_sort_key_defined key l s Hsort a Hin) as [r Hr].
  rewrite Hkey in Hr |- *.
  apply severity_order_get_unknown; [| exact Hunk].
  apply (severity_order_get_hashable v r Hr).
Qed.

(** C1, as the code has it: in a run that completes, a finding whose
    "severity" is present and is not "Alta", "Media" or "Baja" has rank 9
    and stands after every finding whose severity is one of the three; the
    same holds in the sorted deduplicated list, for [priority].  A finding
    with no "severity" has rank 2, the rank of "Baja". *)
Theorem unrecognised_severity_sorts_last (w : world) (m : memory) :
  build w = Ok m ->
  let sorted := Handoff.findings (m_handoff m) in
  let dedup := Handoff.deduplicated_patch_candidates (m_handoff m) in
  (forall f v,
      In f sorted -> dict_get "severity" (fields f) = Some v -> ~ known v ->
      severity_key f = Ok 9%Z)
  /\ (forall i j f g v u,
        nth_error sorted i = Some f -> nth_error sorted j = Some g ->
        dict_get "severity" (fields f) = Some v -> ~ known v ->
        dict_get "severity" (fields g) = Some u -> known u ->
        j < i)
  /\ (forall d, In d dedup -> ~ known (Dedup.priority d) ->
                priority_key d = Ok 9%Z)
  /\ (forall i j d e,
        nth_error dedup i = Some d -> nth_error dedup j = Some e ->
        ~ known (Dedup.priority d) -> known (Dedup.priority e) ->
        j < i)
  /\ (forall f, dict_get "severity" (fields f) = None ->
                severity_key f = Ok 2%Z).
Proof.
  intros H. apply build_Ok in H.
  destruct H as [agents [fs [ds [_ [Hsort [Hdedup ->]]]]]]. simpl.
  unfold deduplicated_patch_candidates in Hdedup. bind_inv Hdedup.
  rename a into dm.
  assert (Hf9 : forall f v, In f fs ->
              dict_get "severity" (fields f) = Some v -> ~ known v ->
              severity_key f = Ok 9%Z).
  { intros f v Hin Hv Hunk.
    apply (sorted_unknown_rank_9 _ _ _ f v Hsort Hin); [| exact Hunk].
    apply severity_key_present, Hv. }
  assert (Hd9 : forall d, In d ds -> ~ known (Dedup.priority d) ->
              priority_key d = Ok 9%Z).
  { intros d Hin Hunk.
    apply (sorted_unknown_rank_9 _ _ _ d (Dedup.priority d) Hdedup Hin);
      [reflexivity | exact Hunk]. }
  split; [exact Hf9 |]. split; [| split; [exact Hd9 | split]].
  - intros i j f g v u Hi Hj Hv Hunk Hu Hknown.
    destruct (severity_order_get_known u Hknown) as [r [Hr Hle]].
    apply (rank_9_after_known _ _ _ Hsort i j f g r Hi Hj).
    + apply (Hf9 f v); [eapply nth_error_In; eassumption | exact Hv | exact Hunk].
    + rewrite (severity_key_present g u Hu). exact Hr.
    + lia.
  - intros i j d e Hi Hj Hunk Hknown.
    destruct (severity_order_get_known _ Hknown) as [r [Hr Hle]].
    apply (rank_9_after_known _ _ _ Hdedup i j d e r Hi Hj).
    + apply Hd9; [eapply nth_error_In; eassumption | exact Hunk].
    + exact Hr.
    + lia.
  - exact severity_key_absent.
Qed.

Lemma unrecognised_severity_sorts_last_witness :
  exists m,
    build two_reports = Ok m
    /\ (forall f v,
          In f (Handoff.findings (m_handoff m)) ->
          dict_get "severity" (fields f) = Some v -> ~ known v ->
          severity_key f = Ok 9%Z)
    /\ map severity_key (Handoff.findings (m_handoff m))
       = [Ok 0; Ok 0; Ok 1; Ok 2; Ok 2; Ok 9; Ok 9]%Z
    /\ map priority_key
           (Handoff.deduplicated_patch_candidates (m_handoff m))
       = [Ok 0; Ok 1; Ok 2; Ok 9; Ok 9]%Z.
Proof.
  eexists. split; [reflexivity |]. split.
  - apply (unrecognised_severity_sorts_last two_reports). reflexivity.
  - split; reflexivity.
Defined.

(** C1, as the claim states it, fails for a finding with no severity: its
    rank is 2, not 9, and in a sort with a finding of severity "Baja" it
    keeps its place before it. *)
Lemma absent_severity_is_not_rank_9 :
  dict_get "severity" (fields no_severity) = None
  /\ severity_key no_severity = Ok 2%Z
  /\ severity_key no_severity <> Ok 9%Z
  /\ dict_get "severity" (fields explicit_baja) = Some (JStr "Baja")
  /\ list_sort severity_key [no_severity; explicit_baja]
     = Ok [no_severity; explicit_baja].
Proof.
  split; [reflexivity |]. split; [reflexivity |].
  split; [discriminate |]. split; reflexivity.
Qed.



(** ** Equality of keys *)

Lemma py_eq_refl (a : json) : hashable a = true -> py_eq a a = true.
Proof.
  destruct a as [| b | n | s | l | d]; simpl; intros H;
    try reflexivity; try discriminate H.
  - destruct b; reflexivity.
  - apply Z.eqb_refl.
  - apply String.eqb_refl.
Qed.

Lemma py_eq_sym (a b : json) : py_eq a b = py_eq b a.
Proof.
  destruct a as [| x | n | s | l | d], b as [| y | n' | s' | l' | d'];
    simpl; try reflexivity.
  - destruct x, y; reflexivity.
  - apply Z.eqb_sym.
  - apply Z.eqb_sym.
  - apply Z.eqb_sym.
  - apply String.eqb_sym.
Qed.

Lemma py_eq_trans (a b c : json) :
  py_eq a b = true -> py_eq b c = true -> py_eq a c = true.
Proof.
  destruct a as [| x | n | s | l | d], b as [| y | n' | s' | l' | d'],
    c as [| z | n'' | s'' | l'' | d''];
    cbn [py_eq]; try discriminate; try (intros _ _; reflexivity);
    rewrite ?Z.eqb_eq, ?String.eqb_eq, ?Bool.eqb_true_iff; intros H1 H2;
    repeat match goal with x : bool |- _ => destruct x end;
    simpl in *; subst; try reflexivity; try discriminate; try lia.
Qed.

Lemma key_eqb_refl (k : key) : hashable_key k = true -> key_eqb k k = true.
Proof.
  destruct k as [[a b] c]. simpl. intros H.
  apply andb_prop in H. destruct H as [H Hc].
  apply andb_prop in H. destruct H as [Ha Hb].
  rewrite !py_eq_refl by assumption. reflexivity.
Qed.

Lemma key_eqb_sym (k1 k2 : key) : key_eqb k1 k2 = key_eqb k2 k1.
Proof.
  destruct k1 as [[a1 b1] c1], k2 as [[a2 b2] c2]. simpl.
  rewrite (py_eq_sym a1), (py_eq_sym b1), (py_eq_sym c1). reflexivity.
Qed.

Lemma key_eqb_trans (k1 k2 k3 : key) :
  key_eqb k1 k2 = true -> key_eqb k2 k3 = true -> key_eqb k1 k3 = true.
Proof.
  destruct k1 as [[a1 b1] c1], k2 as [[a2 b2] c2], k3 as [[a3 b3] c3]. simpl.
  intros H1 H2.
  apply andb_prop in H1. destruct H1 as [H1 Hc1].
  apply andb_prop in H1. destruct H1 as [Ha1 Hb1].
  apply andb_prop in H2. destruct H2 as [H2 Hc2].
  apply andb_prop in H2. destruct H2 as [Ha2 Hb2].
  rewrite (py_eq_trans _ _ _ Ha1 Ha2), (py_eq_trans _ _ _ Hb1 Hb2),
    (py_eq_trans _ _ _ Hc1 Hc2). reflexivity.
Qed.

(** Two keys equal to a third are equal to each other. *)
Lemma key_eqb_common (k k1 k2 : key) :
  key_eqb k k1 = true -> key_eqb k k2 = true -> key_eqb k1 k2 = true.
Proof.
  intros H1 H2. apply key_eqb_trans with k; [| exact H2].
  rewrite key_eqb_sym. exact H1.
Qed.

(** ** [distinct] and [contains] *)

Lemma contains_In (a : string) (l : list string) :
  contains a l = true <-> In a l.
Proof.
  induction l as [| x l IH]; simpl.
  - split; [discriminate | intros []].
  - rewrite orb_true_iff, IH, String.eqb_eq. split; intros [H | H]; auto.
Qed.

Lemma contains_filter (a x : string) (l : list string) :
  contains a (filter (fun y => negb (String.eqb x y)) l)
  = (negb (String.eqb x a) && contains a l)%bool.
Proof.
  induction l as [| y l IH]; simpl.
  - rewrite andb_false_r. reflexivity.
  - destruct (String.eqb_spec x y) as [<- | Hxy]; simpl; rewrite IH.
    + rewrite (String.eqb_sym a x).
      destruct (String.eqb x a); reflexivity.
    + destruct (String.eqb_spec a y) as [-> | Hay]; simpl.
      * apply String.eqb_neq in Hxy. rewrite Hxy. reflexivity.
      * reflexivity.
Qed.

Lemma contains_distinct (a : string) (l : list string) :
  contains a (distinct l) = contains a l.
Proof.
  induction l as [| x l IH]; simpl; [reflexivity |].
  rewrite contains_filter, IH, (String.eqb_sym x a).
  destruct (String.eqb a x); reflexivity.
Qed.

Lemma distinct_snoc (l : list string) (a : string) :
  distinct (l ++ [a])
  = if contains a l then distinct l else distinct l ++ [a].
Proof.
  induction l as [| x l IH]; simpl; [reflexivity |].
  rewrite IH. destruct (contains a l) eqn:Ec.
  - rewrite orb_true_r. reflexivity.
  - rewrite orb_false_r, filter_app. simpl.
    rewrite (String.eqb_sym a x).
    destruct (String.eqb x a); simpl; [rewrite app_nil_r |]; reflexivity.
Qed.

Lemma distinct_In (a : string) (l : list string) :
  In a (distinct l) <-> In a l.
Proof. rewrite <- !contains_In, contains_distinct. reflexivity. Qed.

Lemma distinct_NoDup (l : list string) : NoDup (distinct l).
Proof.
  induction l as [| x l IH]; simpl; [constructor |].
  constructor.
  - rewrite filter_In, String.eqb_refl. intros [_ H]. discriminate H.
  - apply NoDup_filter, IH.
Qed.

(** ** The deduplication map *)

Lemma dedup_get_None (k : key) (m : dedup_map_t) :
  dedup_get k m = None
  <-> Forall (fun k' => key_eqb k k' = false) (map fst m).
Proof.
  induction m as [| [k' d] m IH]; simpl.
  - split; [constructor | reflexivity].
  - destruct (key_eqb k k') eqn:E.
    + split; [discriminate |]. intros H.
      apply Forall_inv in H. rewrite E in H. discriminate H.
    + rewrite IH. split.
      * intros H. constructor; assumption.
      * intros H. apply Forall_inv_tail in H. exact H.
Qed.

Lemma dedup_get_Some (k : key) (m : dedup_map_t) :
  (exists d, dedup_get k m = Some d)
  <-> Exists (fun k' => key_eqb k k' = true) (map fst m).
Proof.
  induction m as [| [k' d] m IH]; simpl.
  - split; [intros [d H]; discriminate H | intros H; inversion H].
  - destruct (key_eqb k k') eqn:E.
    + split; [intros _; apply Exists_cons_hd, E | intros _; exists d; reflexivity].
    + rewrite IH. split.
      * intros H. apply Exists_cons_tl, H.
      * intros H. apply Exists_cons in H. destruct H as [H | H];
          [rewrite E in H; discriminate H | exact H].
Qed.

Lemma dedup_update_keys (k : key) (a : string) (m : dedup_map_t) :
  map fst (dedup_update k a m) = map fst m.
Proof.
  induction m as [| [k' d] m IH]; simpl; [reflexivity |].
  destruct (key_eqb k k'); simpl; [reflexivity | rewrite IH; reflexivity].
Qed.

Lemma fresh_keys_snoc (ks : list key) (k : key) :
  fresh_keys ks -> Forall (fun k' => key_eqb k k' = false) ks ->
  fresh_keys (ks ++ [k]).
Proof.
  unfold fresh_keys. induction 1 as [| k0 ks Hk0 Hks IH]; simpl; intros Hall.
  - constructor; constructor.
  - constructor.
    + apply Forall_app. split; [exact Hk0 |].
      constructor; [exact (Forall_inv Hall) | constructor].
    + apply IH. exact (Forall_inv_tail Hall).
Qed.

(** On fresh keys, at most one entry is under a given key, so changing the
    first is changing all. *)
Lemma dedup_update_all (k : key) (a : string) (m : dedup_map_t) :
  fresh_keys (map fst m) -> dedup_update k a m = update_all k a m.
Proof.
  unfold fresh_keys, update_all.
  induction m as [| [k' d] m IH]; simpl; intros Hf; [reflexivity |].
  inversion Hf as [| ? ? Hhead Htail]; subst.
  destruct (key_eqb k k') eqn:E.
  - f_equal. symmetry. rewrite <- (map_id m) at 2.
    apply map_ext_in. intros [k'' d''] Hin. simpl.
    rewrite Forall_forall in Hhead.
    assert (Hk'' : key_eqb k'' k' = false).
    { apply Hhead. apply in_map_iff. exists (k'', d''). split; [reflexivity | exact Hin]. }
    destruct (key_eqb k k'') eqn:E''; [| reflexivity].
    rewrite (key_eqb_common k k'' k' E'' E) in Hk''. discriminate Hk''.
  - f_equal. apply IH. exact Htail.
Qed.

Lemma update_all_keys (k : key) (a : string) (m : dedup_map_t) :
  map fst (update_all k a m) = map fst m.
Proof.
  unfold update_all. rewrite map_map. apply map_ext.
  intros [k' d]. simpl. destruct (key_eqb k k'); reflexivity.
Qed.

Lemma add_agent_key (a : string) (d : Dedup.t) :
  dedup_key (add_agent a d) = dedup_key d.
Proof. unfold add_agent. destruct (contains a _); reflexivity. Qed.

Lemma add_agent_agents (a : string) (d : Dedup.t) :
  Dedup.source_agents (add_agent a d)
  = if contains a (Dedup.source_agents d) then Dedup.source_agents d
    else Dedup.source_agents d ++ [a].
Proof. unfold add_agent. destruct (contains a _); reflexivity. Qed.

Lemma under_snoc (k : key) (seen : list Raw.t) (p : Raw.t) :
  under k (seen ++ [p])
  = under k seen ++ (if key_eqb (raw_key p) k then [p] else []).
Proof. unfold under. rewrite filter_app. reflexivity. Qed.

Lemma filter_nil {A : Type} (f : A -> bool) (l : list A) :
  Forall (fun x => f x = false) l -> filter f l = [].
Proof.
  induction 1 as [| x l Hx _ IH]; simpl; [reflexivity |].
  rewrite Hx. exact IH.
Qed.

(** No raw candidate seen so far is under a key that the map does not
    have. *)
Lemma under_absent_key (seen : list Raw.t) (m : dedup_map_t) (k : key) :
  Forall (fun q => Exists (fun k' => key_eqb (raw_key q) k' = true)
                          (map fst m)) seen ->
  dedup_get k m = None -> under k seen = [].
Proof.
  intros Hcov Hnone. apply dedup_get_None in Hnone.
  apply filter_nil. rewrite Forall_forall in Hcov, Hnone |- *.
  intros q Hq. specialize (Hcov q Hq). apply Exists_exists in Hcov.
  destruct Hcov as [k' [Hk' Hqk']].
  destruct (key_eqb (raw_key q) k) eqn:E; [| reflexivity].
  pose proof (Hnone k' Hk') as Hn.
  rewrite (key_eqb_common (raw_key q) k k' E Hqk') in Hn. discriminate Hn.
Qed.

(** ** The invariant of the loop of line 56 *)

#[local] Arguments key_eqb : simpl never.
#[local] Arguments raw_key : simpl never.
#[local] Arguments under : simpl never.
#[local] Arguments hashable_key : simpl never.

Lemma invariant_empty : invariant [] [].
Proof. constructor; simpl; constructor. Qed.

(** Lines 58-69: a key that is not in the map. *)
Lemma invariant_new (seen : list Raw.t) (m : dedup_map_t) (p : Raw.t) :
  invariant seen m ->
  hashable_key (raw_key p) = true ->
  dedup_get (raw_key p) m = None ->
  invariant (seen ++ [p]) (m ++ [(raw_key p, new_entry (List.length m) p)]).
Proof.
  intros [Hhash Hkeys Hfresh Hcov Hfirst Hag] Hh Hnone.
  pose proof (under_absent_key seen m _ Hcov Hnone) as Hunder.
  pose proof (proj1 (dedup_get_None _ _) Hnone) as Hother.
  constructor.
  - apply Forall_app. split; [exact Hhash | constructor; [exact Hh | constructor]].
  - apply Forall_app. split; [exact Hkeys |].
    constructor; [split; [reflexivity | exact Hh] | constructor].
  - rewrite map_app. simpl. apply fresh_keys_snoc; assumption.
  - apply Forall_app. split.
    + rewrite Forall_forall in Hcov |- *. intros q Hq.
      rewrite map_app. apply Exists_app. left. apply Hcov, Hq.
    + constructor; [| constructor].
      rewrite map_app. apply Exists_app. right. simpl.
      apply Exists_cons_hd, key_eqb_refl, Hh.
  - apply Forall_app. split.
    + rewrite Forall_forall in Hfirst |- *. intros kd Hin.
      destruct (Hfirst kd Hin) as [q [rest [Hu Hk]]].
      rewrite under_snoc, Hu. eexists; eexists; split; [reflexivity | exact Hk].
    + constructor; [| constructor]. simpl.
      exists p, []. rewrite under_snoc, Hunder, (key_eqb_refl _ Hh).
      split; reflexivity.
  - apply Forall_app. split.
    + rewrite Forall_forall in Hag, Hother |- *. intros kd Hin.
      rewrite under_snoc, (Hother (fst kd) (in_map fst _ _ Hin)), app_nil_r.
      apply Hag, Hin.
    + constructor; [| constructor]. simpl.
      rewrite under_snoc, Hunder, (key_eqb_refl _ Hh). reflexivity.
Qed.

(** Lines 70-72: a key that is in the map. *)
Lemma invariant_merge (seen : list Raw.t) (m : dedup_map_t) (p : Raw.t)
    (d0 : Dedup.t) :
  invariant seen m ->
  hashable_key (raw_key p) = true ->
  dedup_get (raw_key p) m = Some d0 ->
  invariant (seen ++ [p]) (dedup_update (raw_key p) (Raw.source_agent p) m).
Proof.
  intros [Hhash Hkeys Hfresh Hcov Hfirst Hag] Hh Hsome.
  rewrite (dedup_update_all _ _ _ Hfresh).
  constructor.
  - apply Forall_app. split; [exact Hhash | constructor; [exact Hh | constructor]].
  - unfold update_all. apply Forall_map.
    rewrite Forall_forall in Hkeys |- *. intros [k d] Hin.
    destruct (Hkeys _ Hin) as [Hk Hhk]. simpl in *.
    destruct (key_eqb (raw_key p) k); simpl;
      [rewrite add_agent_key |]; split; assumption.
  - rewrite update_all_keys. exact Hfresh.
  - rewrite update_all_keys. apply Forall_app. split; [exact Hcov |].
    constructor; [| constructor].
    apply dedup_get_Some. exists d0. exact Hsome.
  - unfold update_all. apply Forall_map.
    rewrite Forall_forall in Hfirst |- *. intros [k d] Hin.
    destruct (Hfirst _ Hin) as [q [rest [Hu Hk]]]. simpl in Hu, Hk.
    assert (Hfst : fst (if key_eqb (raw_key p) (fst (k, d))
                        then (fst (k, d), add_agent (Raw.source_agent p) (snd (k, d)))
                        else (k, d)) = k).
    { simpl. destruct (key_eqb (raw_key p) k); reflexivity. }
    rewrite Hfst, under_snoc, Hu.
    eexists; eexists; split; [reflexivity | exact Hk].
  - unfold update_all. apply Forall_map.
    rewrite Forall_forall in Hag |- *. intros [k d] Hin.
    pose proof (Hag _ Hin) as Hsa. simpl in Hsa |- *.
    destruct (key_eqb (raw_key p) k) eqn:E; simpl; rewrite under_snoc, E.
    + rewrite add_agent_agents, Hsa, map_app. simpl.
      rewrite distinct_snoc, contains_distinct. reflexivity.
    + rewrite app_nil_r. exact Hsa.
Qed.

Lemma dedup_step_invariant (seen : list Raw.t) (m m' : dedup_map_t)
    (p : Raw.t) :
  invariant seen m -> dedup_step m p = Ok m' -> invariant (seen ++ [p]) m'.
Proof.
  intros Hinv. unfold dedup_step.
  destruct (hashable_key (raw_key p)) eqn:Hh; [| discriminate].
  destruct (dedup_get (raw_key p) m) as [d0 |] eqn:Hget;
    intros H; injection H as <-.
  - apply (invariant_merge seen m p d0); assumption.
  - apply invariant_new; assumption.
Qed.

Lemma dedup_loop_invariant (raw seen : list Raw.t) (m m' : dedup_map_t) :
  invariant seen m -> dedup_loop m raw = Ok m' -> invariant (seen ++ raw) m'.
Proof.
  revert seen m. induction raw as [| p raw IH]; simpl; intros seen m Hinv H.
  - injection H as <-. rewrite app_nil_r. exact Hinv.
  - bind_inv H.
    replace (seen ++ p :: raw) with ((seen ++ [p]) ++ raw)
      by (rewrite <- app_assoc; reflexivity).
    apply (IH _ a); [| exact H].
    apply (dedup_step_invariant seen m a p); assumption.
Qed.

Lemma dedup_step_length (m m' : dedup_map_t) (p : Raw.t) :
  dedup_step m p = Ok m' ->
  List.length m <= List.length m' <= S (List.length m).
Proof.
  unfold dedup_step. destruct (hashable_key (raw_key p)); [| discriminate].
  destruct (dedup_get (raw_key p) m); intros H; injection H as <-.
  - rewrite <- (length_map fst (dedup_update _ _ _)), dedup_update_keys,
      length_map. lia.
  - rewrite length_app. simpl. lia.
Qed.

Lemma dedup_loop_length (raw : list Raw.t) (m m' : dedup_map_t) :
  dedup_loop m raw = Ok m' ->
  List.length m <= List.length m' <= List.length m + List.length raw.
Proof.
  revert m. induction raw as [| p raw IH]; simpl; intros m H.
  - injection H as <-. lia.
  - bind_inv H. apply dedup_step_length in Hbind. apply IH in H. lia.
Qed.

Lemma dedup_loop_total (raw : list Raw.t) (m : dedup_map_t) :
  Forall (fun p => hashable_key (raw_key p) = true) raw ->
  exists m', dedup_loop m raw = Ok m'.
Proof.
  intros Hall. revert m.
  induction Hall as [| p raw Hp _ IH]; simpl; intros m.
  - exists m. reflexivity.
  - unfold dedup_step. rewrite Hp.
    destruct (dedup_get (raw_key p) m); simpl; apply IH.
Qed.

(** What a successful deduplication went through. *)
Lemma deduplicated_Ok (raw : list Raw.t) (ds : list Dedup.t) :
  deduplicated_patch_candidates raw = Ok ds ->
  exists m, dedup_loop [] raw = Ok m
            /\ invariant raw m
            /\ list_sort priority_key (map snd m) = Ok ds
            /\ Permutation (map snd m) ds.
Proof.
  unfold deduplicated_patch_candidates. intros H. bind_inv H.
  exists a. split; [exact Hbind |]. split.
  - apply (dedup_loop_invariant raw [] [] a invariant_empty Hbind).
  - split; [exact H | apply (list_sort_perm _ _ _ H)].
Qed.

(** ** The deduplicated list *)

Lemma fresh_keys_NoDup (ks : list key) :
  fresh_keys ks -> Forall (fun k => hashable_key k = true) ks -> NoDup ks.
Proof.
  unfold fresh_keys. induction 1 as [| k ks Hk Hks IH]; intros Hh.
  - constructor.
  - constructor; [| apply IH, (Forall_inv_tail Hh)].
    intros Hin. rewrite Forall_forall in Hk.
    pose proof (Hk k Hin) as Hkk.
    rewrite (key_eqb_refl k (Forall_inv Hh)) in Hkk. discriminate Hkk.
Qed.

Lemma fresh_keys_eq (ks : list key) (k1 k2 : key) :
  fresh_keys ks -> In k1 ks -> In k2 ks ->
  key_eqb k1 k2 = true -> k1 = k2.
Proof.
  intros Hf H1 H2 E.
  destruct (ForallOrdPairs_In Hf k1 k2 H1 H2) as [Heq | [H | H]].
  - exact Heq.
  - rewrite key_eqb_sym, E in H. discriminate H.
  - rewrite E in H. discriminate H.
Qed.

Lemma invariant_keys (seen : list Raw.t) (m : dedup_map_t) :
  invariant seen m ->
  map fst m = map dedup_key (map snd m)
  /\ Forall (fun k => hashable_key k = true) (map fst m).
Proof.
  intros [_ Hkeys _ _ _ _]. induction Hkeys as [| [k d] m [Hk Hh] _ [IH1 IH2]].
  - split; [reflexivity | constructor].
  - simpl in *. split; [rewrite Hk, IH1; reflexivity |].
    constructor; assumption.
Qed.

Lemma invariant_entry (seen : list Raw.t) (m : dedup_map_t) (d : Dedup.t) :
  invariant seen m -> In d (map snd m) ->
  Dedup.source_agents d
  = distinct (map Raw.source_agent (under (dedup_key d) seen))
  /\ exists q rest, under (dedup_key d) seen = q :: rest
                    /\ raw_key q = dedup_key d.
Proof.
  intros [_ Hkeys _ _ Hfirst Hag] Hin.
  apply in_map_iff in Hin. destruct Hin as [[k d'] [Hd Hin]].
  simpl in Hd. subst d'.
  rewrite Forall_forall in Hkeys, Hfirst, Hag.
  destruct (Hkeys _ Hin) as [Hk _]. simpl in Hk. rewrite <- Hk.
  split; [exact (Hag _ Hin) | exact (Hfirst _ Hin)].
Qed.

(** C3: when the deduplication completes, no two entries of the sorted
    deduplicated list have the same (priority, change_summary,
    risk_if_not_applied), nor two keys that Python holds equal; and the
    source_agents of an entry are the source agents of the raw candidates
    under its key, each once, at its first occurrence. *)
Theorem deduplicated_keys_unique_agents_distinct (raw : list Raw.t)
    (ds : list Dedup.t) :
  deduplicated_patch_candidates raw = Ok ds ->
  NoDup (map dedup_key ds)
  /\ (forall i j d e,
        nth_error ds i = Some d -> nth_error ds j = Some e ->
        key_eqb (dedup_key d) (dedup_key e) = true -> i = j)
  /\ (forall d, In d ds ->
        Dedup.source_agents d
        = distinct (map Raw.source_agent (under (dedup_key d) raw))
        /\ NoDup (Dedup.source_agents d)).
Proof.
  intros H. apply deduplicated_Ok in H.
  destruct H as [m [_ [Hinv [_ Hperm]]]].
  destruct (invariant_keys _ _ Hinv) as [Hfst Hhash].
  pose proof (inv_fresh _ _ Hinv) as Hfresh.
  assert (Hpk : Permutation (map fst m) (map dedup_key ds)).
  { rewrite Hfst. apply Permutation_map, Hperm. }
  assert (Hnd : NoDup (map dedup_key ds)).
  { apply (Permutation_NoDup Hpk), fresh_keys_NoDup; assumption. }
  split; [exact Hnd |]. split.
  - intros i j d e Hi Hj E.
    assert (Hin : forall n x, nth_error ds n = Some x ->
                              In (dedup_key x) (map fst m)).
    { intros n x Hn. apply (Permutation_in _ (Permutation_sym Hpk)).
      apply in_map. eapply nth_error_In; eassumption. }
    pose proof (fresh_keys_eq _ _ _ Hfresh (Hin i d Hi) (Hin j e Hj) E) as Hk.
    apply (proj1 (NoDup_nth_error (map dedup_key ds)) Hnd).
    + rewrite length_map. apply nth_error_Some. rewrite Hi. discriminate.
    + rewrite !nth_error_map, Hi, Hj. simpl. rewrite Hk. reflexivity.
  - intros d Hd.
    apply (Permutation_in _ (Permutation_sym Hperm)) in Hd.
    destruct (invariant_entry _ _ d Hinv Hd) as [Hsa _].
    split; [exact Hsa | rewrite Hsa; apply distinct_NoDup].
Qed.

Lemma deduplicated_keys_unique_agents_distinct_witness :
  exists ds,
    deduplicated_patch_candidates merge_scenario = Ok ds
    /\ NoDup (map dedup_key ds)
    /\ map Dedup.id ds = ["patch-dedup-1"; "patch-dedup-2"]
    /\ map Dedup.source_agents ds = [["logic"; "code_quality"]; ["logic"]].
Proof.
  eexists. split; [reflexivity |]. split.
  - apply (deduplicated_keys_unique_agents_distinct merge_scenario).
    reflexivity.
  - split; reflexivity.
Defined.

(** C10: when the deduplication completes, the source_agents of every
    deduplicated candidate start with the source agent of the first raw
    candidate under its key, so they are not empty; there are never more
    deduplicated candidates than raw ones, and there is at least one when
    there is a raw one. *)
Theorem source_agents_nonempty_count_bounded (raw : list Raw.t)
    (ds : list Dedup.t) :
  deduplicated_patch_candidates raw = Ok ds ->
  (forall d, In d ds ->
     exists p rest others,
       under (dedup_key d) raw = p :: rest
       /\ raw_key p = dedup_key d
       /\ Dedup.source_agents d = Raw.source_agent p :: others)
  /\ (forall d, In d ds -> Dedup.source_agents d <> [])
  /\ List.length ds <= List.length raw
  /\ (raw <> [] -> 1 <= List.length ds).
Proof.
  intros H. apply deduplicated_Ok in H.
  destruct H as [m [Hloop [Hinv [_ Hperm]]]].
  assert (Hlen : List.length ds = List.length m).
  { rewrite <- (Permutation_length Hperm). apply length_map. }
  assert (Hhead : forall d, In d ds ->
            exists p rest others,
              under (dedup_key d) raw = p :: rest
              /\ raw_key p = dedup_key d
              /\ Dedup.source_agents d = Raw.source_agent p :: others).
  { intros d Hd.
    apply (Permutation_in _ (Permutation_sym Hperm)) in Hd.
    destruct (invariant_entry _ _ d Hinv Hd) as [Hsa [p [rest [Hu Hk]]]].
    exists p, rest. rewrite Hsa, Hu. simpl.
    eexists. split; [reflexivity | split; [exact Hk | reflexivity]]. }
  split; [exact Hhead |]. split; [| split].
  - intros d Hd. destruct (Hhead d Hd) as [p [rest [others [_ [_ ->]]]]].
    discriminate.
  - rewrite Hlen. apply dedup_loop_length in Hloop. simpl in Hloop. lia.
  - intros Hne. rewrite Hlen.
    destruct raw as [| p raw]; [contradiction |].
    pose proof (Forall_inv (inv_covered _ _ Hinv)) as Hex.
    apply Exists_exists in Hex. destruct Hex as [k [Hk _]].
    destruct m as [| kd m]; [destruct Hk | simpl; lia].
Qed.

Lemma source_agents_nonempty_count_bounded_witness :
  exists ds,
    deduplicated_patch_candidates merge_scenario = Ok ds
    /\ (forall d, In d ds -> Dedup.source_agents d <> [])
    /\ List.length ds = 2
    /\ List.length merge_scenario = 4.
Proof.
  eexists. split; [reflexivity |]. split.
  - apply (source_agents_nonempty_count_bounded merge_scenario). reflexivity.
  - split; reflexivity.
Defined.

(** ** Running the deduplication again *)

Lemma add_agent_present (a : string) (d : Dedup.t) :
  contains a (Dedup.source_agents d) = true -> add_agent a d = d.
Proof. unfold add_agent. intros ->. reflexivity. Qed.

(** When the loop has gone through [seen], one more turn on any of them
    leaves the map as it is. *)
Lemma dedup_step_again (seen : list Raw.t) (m : dedup_map_t) (q : Raw.t) :
  invariant seen m -> In q seen -> dedup_step m q = Ok m.
Proof.
  intros Hinv Hq. unfold dedup_step.
  pose proof (inv_hashable _ _ Hinv) as Hh.
  pose proof (inv_covered _ _ Hinv) as Hcov.
  pose proof (inv_agents _ _ Hinv) as Hag.
  rewrite Forall_forall in Hh, Hcov, Hag.
  rewrite (Hh q Hq).
  destruct (proj2 (dedup_get_Some _ _) (Hcov q Hq)) as [d0 ->].
  rewrite (dedup_update_all _ _ _ (inv_fresh _ _ Hinv)).
  f_equal. unfold update_all. rewrite <- (map_id m) at 2.
  apply map_ext_in. intros [k d] Hin. simpl.
  destruct (key_eqb (raw_key q) k) eqn:E; [| reflexivity].
  f_equal. apply add_agent_present.
  pose proof (Hag _ Hin) as Hsa. simpl in Hsa.
  rewrite Hsa, contains_distinct.
  apply contains_In, in_map. unfold under. apply filter_In.
  split; [exact Hq | exact E].
Qed.

Lemma dedup_loop_again (seen l : list Raw.t) (m : dedup_map_t) :
  invariant seen m -> incl l seen -> dedup_loop m l = Ok m.
Proof.
  intros Hinv. induction l as [| q l IH]; simpl; intros Hincl.
  - reflexivity.
  - rewrite (dedup_step_again seen m q Hinv (Hincl q (in_eq q l))). simpl.
    apply IH. intros x Hx. apply Hincl, in_cons, Hx.
Qed.

(** C8: the deduplicated list is a function of the raw candidates alone,
    and running the deduplication again on the same raw candidates changes
    nothing: a second pass of the loop of line 56 over the map the first
    pass left gives that map back, entry for entry, and sorting the
    deduplicated list again gives the list back; so the ids, the order and
    the source_agents are those of the first run. *)
Theorem deduplication_is_idempotent (raw : list Raw.t) (ds : list Dedup.t) :
  deduplicated_patch_candidates raw = Ok ds ->
  (exists dedup_map,
      dedup_loop [] raw = Ok dedup_map
      /\ dedup_loop dedup_map raw = Ok dedup_map
      /\ list_sort priority_key (map snd dedup_map) = Ok ds)
  /\ list_sort priority_key ds = Ok ds
  /\ (forall ds', deduplicated_patch_candidates raw = Ok ds' ->
        map Dedup.id ds' = map Dedup.id ds
        /\ map Dedup.source_agents ds' = map Dedup.source_agents ds
        /\ ds' = ds).
Proof.
  intros H. pose proof (deduplicated_Ok _ _ H) as [m [Hloop [Hinv [Hsort _]]]].
  split; [| split].
  - exists m. split; [exact Hloop |]. split; [| exact Hsort].
    apply (dedup_loop_again raw raw m Hinv), incl_refl.
  - apply (list_sort_idempotent _ _ _ Hsort).
  - intros ds' H'. rewrite H in H'. injection H' as <-.
    repeat split; reflexivity.
Qed.

Lemma deduplication_is_idempotent_witness :
  exists ds,
    deduplicated_patch_candidates merge_scenario = Ok ds
    /\ list_sort priority_key ds = Ok ds
    /\ map Dedup.id ds = ["patch-dedup-1"; "patch-dedup-2"].
Proof.
  eexists. split; [reflexivity |]. split.
  - apply (deduplication_is_idempotent merge_scenario). reflexivity.
  - reflexivity.
Defined.

(** ** The confirmation template *)

(** C4: the confirmation template has one decision for each deduplicated
    candidate of the handoff, in the order of the sorted deduplicated list,
    and the decision at an index names the candidate at that index. *)
Theorem decisions_match_deduplicated (w : world) (m : memory) :
  build w = Ok m ->
  let decisions := Template.decisions (m_confirmation_template m) in
  let dedup := Handoff.deduplicated_patch_candidates (m_handoff m) in
  List.length decisions = List.length dedup
  /\ map Slot.patch_id decisions = map Dedup.id dedup
  /\ (forall i p,
        nth_error dedup i = Some p ->
        exists s, nth_error decisions i = Some s
                  /\ Slot.patch_id s = Dedup.id p)
  /\ (exists dedup_map,
        dedup_loop [] (Handoff.raw_patch_candidates (m_handoff m))
        = Ok dedup_map
        /\ list_sort priority_key (map snd dedup_map) = Ok dedup).
Proof.
  intros H. apply build_Ok in H.
  destruct H as [agents [fs [ds [_ [_ [Hdedup ->]]]]]]. simpl.
  split; [apply length_map |]. split.
  - rewrite map_map. reflexivity.
  - split.
    + intros i p Hi. exists (decision p).
      split; [apply map_nth_error, Hi | reflexivity].
    + apply deduplicated_Ok in Hdedup.
      destruct Hdedup as [dm [Hloop [_ [Hsort _]]]].
      exists dm. split; assumption.
Qed.

Lemma decisions_match_deduplicated_witness :
  exists m,
    build two_reports = Ok m
    /\ List.length (Template.decisions (m_confirmation_template m))
       = List.length (Handoff.deduplicated_patch_candidates (m_handoff m))
    /\ map Slot.patch_id (Template.decisions (m_confirmation_template m))
       = ["patch-dedup-1"; "patch-dedup-2"; "patch-dedup-3"; "patch-dedup-4";
          "patch-dedup-5"].
Proof.
  eexists. split; [reflexivity |]. split.
  - apply (decisions_match_deduplicated two_reports). reflexivity.
  - reflexivity.
Defined.

(** ** The cap of 30 *)

Lemma enumerate_raw_length (start : nat) (l : list finding) :
  List.length (enumerate_raw start l) = List.length l.
Proof.
  revert start. induction l as [| f l IH]; simpl; intros start;
    [reflexivity | rewrite IH; reflexivity].
Qed.

Lemma enumerate_raw_nth (start i : nat) (l : list finding) :
  nth_error (enumerate_raw start l) i
  = option_map (raw_candidate (start + i)) (nth_error l i).
Proof.
  revert start i. induction l as [| f l IH]; intros start i.
  - destruct i; reflexivity.
  - destruct i as [| i]; simpl.
    + rewrite Nat.add_0_r. reflexivity.
    + rewrite IH, Nat.add_succ_r. reflexivity.
Qed.

Lemma enumerate_raw_ids (start : nat) (l : list finding) :
  map Raw.id (enumerate_raw start l)
  = map (fun n => "patch-" ++ str n)%string (seq start (List.length l)).
Proof.
  revert start. induction l as [| f l IH]; intros start;
    [reflexivity | simpl; rewrite IH; reflexivity].
Qed.

Lemma firstn_beyond (n : nat) (l others : list finding) :
  n <= List.length l -> firstn n (firstn n l ++ others) = firstn n l.
Proof.
  intros Hn. rewrite firstn_app, firstn_firstn, Nat.min_id.
  rewrite length_firstn, (Nat.min_l _ _ Hn), Nat.sub_diag.
  apply app_nil_r.
Qed.

(** C5: in a completed run with more than 30 findings, the "findings" of
    the handoff are all the aggregated findings, sorted; the raw candidates
    are 30, numbered patch-1 to patch-30, the one at index i made from the
    finding at index i of the sorted list; whatever stands beyond the first
    30 findings, the raw candidates are the same; and the deduplicated list
    is the deduplication of these 30.  Sorted is meant in full: the
    "findings" are what the severity sort of line 36 returns on the
    aggregated findings, every one of them has a rank, the ranks never
    decrease along the list (so the 30 that become candidates rank no
    higher than any finding left out), and the findings of one rank keep
    the order they were read in.  The members of the candidate at index i
    are read from the finding at index i. *)
Theorem raw_candidates_are_first_thirty (w : world) (m : memory) :
  build w = Ok m ->
  let sorted := Handoff.findings (m_handoff m) in
  let raw := Handoff.raw_patch_candidates (m_handoff m) in
  30 < List.length sorted ->
  Permutation (aggregated w) sorted
  /\ List.length sorted = List.length (aggregated w)
  /\ List.length raw = 30
  /\ map Raw.id raw = map (fun n => "patch-" ++ str n)%string (seq 1 30)
  /\ (forall i f, i < 30 -> nth_error sorted i = Some f ->
                  nth_error raw i = Some (raw_candidate (S i) f))
  /\ (forall i p, nth_error raw i = Some p ->
                  i < 30 /\ exists f, nth_error sorted i = Some f
                                      /\ p = raw_candidate (S i) f)
  /\ (forall others, raw_patch_candidates (firstn 30 sorted ++ others) = raw)
  /\ deduplicated_patch_candidates raw
     = Ok (Handoff.deduplicated_patch_candidates (m_handoff m))
  /\ list_sort severity_key (aggregated w) = Ok sorted
  /\ (forall f, In f sorted -> exists r, severity_key f = Ok r)
  /\ (forall i j f g ri rj,
        i < j ->
        nth_error sorted i = Some f -> nth_error sorted j = Some g ->
        severity_key f = Ok ri -> severity_key g = Ok rj ->
        (ri <= rj)%Z)
  /\ (forall r,
        filter (has_key severity_key r) sorted
        = filter (has_key severity_key r) (aggregated w))
  /\ (forall i p, nth_error raw i = Some p ->
        exists f,
          nth_error sorted i = Some f
          /\ Raw.id p = ("patch-" ++ str (S i))%string
          /\ Raw.priority p = get_default "severity" (JStr "Baja") (fields f)
          /\ Raw.source_agent p = agent f
          /\ Raw.change_summary p
             = get_default "recommendation" JNull (fields f)
          /\ Raw.risk_if_not_applied p = get_default "risk" JNull (fields f)).
Proof.
  intros H. apply build_Ok in H.
  destruct H as [agents [fs [ds [_ [Hsort [Hdedup ->]]]]]].
  cbn [m_handoff handoff Handoff.findings Handoff.raw_patch_candidates
       Handoff.deduplicated_patch_candidates].
  intros Hlen. unfold raw_patch_candidates.
  assert (Hfirst : List.length (firstn 30 fs) = 30).
  { rewrite length_firstn. apply Nat.min_l. lia. }
  split; [exact (list_sort_perm _ _ _ Hsort) |].
  split; [exact (list_sort_length _ _ _ Hsort) |].
  split; [rewrite enumerate_raw_length; exact Hfirst |].
  split; [rewrite enumerate_raw_ids, Hfirst; reflexivity |].
  split; [| split; [| split]].
  - intros i f Hi Hf.
    rewrite enumerate_raw_nth, nth_error_firstn.
    apply Nat.ltb_lt in Hi. rewrite Hi, Hf. reflexivity.
  - intros i p Hp.
    rewrite enumerate_raw_nth, nth_error_firstn in Hp.
    destruct (Nat.ltb i 30) eqn:Hi; [| discriminate Hp].
    apply Nat.ltb_lt in Hi. split; [exact Hi |].
    destruct (nth_error fs i) as [f |]; [| discriminate Hp].
    exists f. injection Hp as <-. split; reflexivity.
  - intros others. rewrite firstn_beyond by lia. reflexivity.
  - split; [exact Hdedup |]. split; [exact Hsort |].
    split; [intros f; apply (list_sort_key_defined _ _ _ Hsort) |].
    split; [| split].
    + intros i j f g ri rj Hij Hi Hj Hf Hg.
      destruct (Z.le_gt_cases ri rj) as [Hle | Hgt]; [exact Hle |].
      pose proof (list_sort_ordered _ _ _ Hsort j i g f rj ri Hj Hi Hg Hf Hgt).
      lia.
    + intros r. apply (list_sort_stable _ _ _ Hsort).
    + intros i p Hp.
      rewrite enumerate_raw_nth, nth_error_firstn in Hp.
      destruct (Nat.ltb i 30); [| discriminate Hp].
      destruct (nth_error fs i) as [f |]; [| discriminate Hp].
      exists f. injection Hp as <-. repeat split; reflexivity.
Qed.

Lemma raw_candidates_are_first_thirty_witness :
  exists m,
    build many_findings = Ok m
    /\ List.length (Handoff.findings (m_handoff m)) = 35
    /\ List.length (Handoff.raw_patch_candidates (m_handoff m)) = 30
    /\ map Raw.id (Handoff.raw_patch_candidates (m_handoff m))
       = map (fun n => "patch-" ++ str n)%string (seq 1 30).
Proof.
  eexists. split; [vm_compute; reflexivity |].
  split; [vm_compute; reflexivity |].
  match goal with
  | |- context [m_handoff ?m] =>
      destruct (raw_candidates_are_first_thirty many_findings m)
        as [_ [_ [Hlen [Hids _]]]]
  end.
  - vm_compute. reflexivity.
  - vm_compute. lia.
  - split; [exact Hlen | exact Hids].
Defined.

(** ** Runs that complete *)

Lemma dict_get_In (k : string) (d : dict) (v : json) :
  dict_get k d = Some v -> In (k, v) d.
Proof.
  induction d as [| [k' v'] d IH]; simpl; [discriminate |].
  destruct (String.eqb_spec k k') as [<- | _].
  - intros H. injection H as <-. left. reflexivity.
  - intros H. right. apply IH, H.
Qed.

Lemma get_default_hashable (f : finding) (k : string) (default : json) :
  plain f -> hashable default = true ->
  hashable (get_default k default (fields f)) = true.
Proof.
  intros Hp Hd. unfold get_default.
  destruct (dict_get k (fields f)) as [v |] eqn:E; [| exact Hd].
  apply (Hp k v), dict_get_In, E.
Qed.

Lemma severity_order_get_total (v : json) :
  hashable v = true -> exists r, severity_order_get v 9 = Ok r.
Proof.
  intros H. unfold severity_order_get. rewrite H.
  destruct v as [| b | n | s | l | d]; try (eexists; reflexivity).
  destruct (order_lookup s severity_order); eexists; reflexivity.
Qed.

Lemma firstn_In {A : Type} (n : nat) (l : list A) (x : A) :
  In x (firstn n l) -> In x l.
Proof.
  intros H. rewrite <- (firstn_skipn n l). apply in_or_app. left. exact H.
Qed.

Lemma enumerate_raw_In (start : nat) (l : list finding) (p : Raw.t) :
  In p (enumerate_raw start l) ->
  exists i f, In f l /\ p = raw_candidate i f.
Proof.
  revert start. induction l as [| f l IH]; simpl; intros start; [intros [] |].
  intros [<- | Hin].
  - exists start, f. split; [left; reflexivity | reflexivity].
  - destruct (IH _ Hin) as [i [g [Hg ->]]].
    exists i, g. split; [right; exact Hg | reflexivity].
Qed.

Lemma raw_candidate_hashable (i : nat) (f : finding) :
  plain f -> hashable_key (raw_key (raw_candidate i f)) = true.
Proof.
  intros Hp. unfold hashable_key, raw_key. cbn [raw_candidate Raw.priority
    Raw.change_summary Raw.risk_if_not_applied].
  rewrite !get_default_hashable by (exact Hp || reflexivity). reflexivity.
Qed.

(** When no report is malformed and no member of a finding is a list or a
    dict, lines 21-110 raise nothing. *)
Lemma build_total (w : world) :
  Forall (fun e => disk w (snd e) <> Malformed) (files w) ->
  Forall plain (aggregated w) ->
  exists m, build w = Ok m.
Proof.
  intros Hfiles Hplain.
  destruct (load_total _ _ [] [] Hfiles) as [agents [fs Hload]].
  destruct (load_files w agents fs Hload) as [_ ->].
  destruct (list_sort_total severity_key (aggregated w)) as [sorted Hsort].
  { rewrite Forall_forall in Hplain |- *. intros f Hf.
    apply severity_order_get_total, get_default_hashable;
      [apply Hplain, Hf | reflexivity]. }
  assert (Hsorted : Forall plain sorted).
  { apply (Permutation_Forall (list_sort_perm _ _ _ Hsort)), Hplain. }
  destruct (dedup_loop_total (raw_patch_candidates sorted) []) as [dm Hloop].
  { rewrite Forall_forall in Hsorted |- *. intros p Hp.
    apply enumerate_raw_In in Hp. destruct Hp as [i [f [Hf ->]]].
    apply raw_candidate_hashable, Hsorted, (firstn_In _ _ _ Hf). }
  pose proof (dedup_loop_invariant _ [] [] dm invariant_empty Hloop) as Hinv.
  destruct (list_sort_total priority_key (map snd dm)) as [ds Hds].
  { pose proof (inv_keys _ _ Hinv) as Hkeys.
    rewrite Forall_forall in Hkeys |- *. intros d Hd.
    apply in_map_iff in Hd. destruct Hd as [[k d'] [<- Hin]].
    destruct (Hkeys _ Hin) as [Hk Hh]. simpl in Hk, Hh |- *.
    apply severity_order_get_total.
    rewrite Hk in Hh. unfold hashable_key, dedup_key in Hh.
    apply andb_prop in Hh. destruct Hh as [Hh _].
    apply andb_prop in Hh. destruct Hh as [Hh _]. exact Hh. }
  unfold build. rewrite Hload. cbn [bind]. rewrite Hsort. cbn [bind].
  unfold deduplicated_patch_candidates. rewrite Hloop. cbn [bind].
  rewrite Hds. cbn [bind]. eexists. reflexivity.
Qed.

(** Such a run, on a directory that can be written, leaves the two
    documents and raises nothing. *)
Lemma run_completes (w : world) :
  Forall (fun e => disk w (snd e) <> Malformed) (files w) ->
  Forall plain (aggregated w) ->
  writable w (handoff_path w) = true ->
  writable w (confirmation_path w) = true ->
  raised (run w) = None
  /\ map fst (written (run w)) = [handoff_path w; confirmation_path w].
Proof.
  intros Hfiles Hplain Hw1 Hw2.
  destruct (build_total w Hfiles Hplain) as [m Hm].
  unfold run. rewrite Hm, Hw1, Hw2. split; reflexivity.
Qed.

(** * Further facts *)

(** ** [str] and the ids *)

Lemma to_uint_nonnil (n : nat) : Nat.to_uint n <> Decimal.Nil.
Proof.
  rewrite <- (DecimalNat.Unsigned.of_to n) at 1.
  rewrite DecimalNat.Unsigned.to_of. apply DecimalFacts.unorm_nonnil.
Qed.

Lemma str_inj (n n' : nat) : str n = str n' -> n = n'.
Proof.
  unfold str. intros H. apply DecimalNat.Unsigned.to_uint_inj.
  assert (E : NilZero.uint_of_string (NilZero.string_of_uint (Nat.to_uint n))
              = NilZero.uint_of_string (NilZero.string_of_uint (Nat.to_uint n')))
    by (rewrite H; reflexivity).
  rewrite !NilZero.usu in E by apply to_uint_nonnil.
  injection E as E. exact E.
Qed.

Lemma append_inj (s a b : string) : (s ++ a)%string = (s ++ b)%string -> a = b.
Proof.
  induction s as [| c s IH]; simpl; intros H; [exact H |].
  injection H as H. apply IH, H.
Qed.

Lemma numbered_NoDup (prefix : string) (start len : nat) :
  NoDup (map (fun n => prefix ++ str n)%string (seq start len)).
Proof.
  apply Finite.Injective_map_NoDup; [| apply seq_NoDup].
  intros n n' H. apply str_inj, (append_inj prefix), H.
Qed.

(** X1: for any list of findings, sorted or not, the raw candidates are as
    many as the findings, and 30 at most; their ids are patch-1, patch-2,
    ... in order, all different; and the candidate at an index is made from
    the finding at that index, with its agent, severity (or "Baja"),
    recommendation and risk. *)
Theorem raw_candidates_numbered (fs : list finding) :
  let raw := raw_patch_candidates fs in
  List.length raw = Nat.min 30 (List.length fs)
  /\ map Raw.id raw
     = map (fun n => "patch-" ++ str n)%string
           (seq 1 (Nat.min 30 (List.length fs)))
  /\ NoDup (map Raw.id raw)
  /\ (forall i p, nth_error raw i = Some p ->
        i < 30
        /\ exists f, nth_error fs i = Some f
                     /\ p = raw_candidate (S i) f
                     /\ Raw.source_agent p = agent f
                     /\ rank (Raw.priority p) = severity_key f).
Proof.
  unfold raw_patch_candidates. cbv zeta.
  assert (Hlen : List.length (firstn 30 fs) = Nat.min 30 (List.length fs))
    by apply length_firstn.
  split; [rewrite enumerate_raw_length; exact Hlen |].
  split; [rewrite enumerate_raw_ids, Hlen; reflexivity |].
  split; [rewrite enumerate_raw_ids; apply numbered_NoDup |].
  intros i p Hp.
  rewrite enumerate_raw_nth, nth_error_firstn in Hp.
  destruct (Nat.ltb i 30) eqn:Hi; [| discriminate Hp].
  apply Nat.ltb_lt in Hi. split; [exact Hi |].
  destruct (nth_error fs i) as [f |]; [| discriminate Hp].
  exists f. injection Hp as <-. repeat split; reflexivity.
Qed.

(** ** The ids and the fixed members of the deduplicated candidates *)

Lemma add_agent_id (a : string) (d : Dedup.t) :
  Dedup.id (add_agent a d) = Dedup.id d.
Proof. unfold add_agent. destruct (contains a _); reflexivity. Qed.

Lemma add_agent_priority (a : string) (d : Dedup.t) :
  Dedup.priority (add_agent a d) = Dedup.priority d.
Proof. unfold add_agent. destruct (contains a _); reflexivity. Qed.

Lemma add_agent_undecided (a : string) (d : Dedup.t) :
  undecided d -> undecided (add_agent a d).
Proof. unfold add_agent. destruct (contains a _); intros H; exact H. Qed.

Lemma dedup_update_map {B : Type} (g : Dedup.t -> B) (k : key) (a : string)
    (m : dedup_map_t) :
  (forall d, g (add_agent a d) = g d) ->
  map (fun kd => g (snd kd)) (dedup_update k a m)
  = map (fun kd => g (snd kd)) m.
Proof.
  intros Hg. induction m as [| [k' d] m IH]; simpl; [reflexivity |].
  destruct (key_eqb k k'); simpl; [rewrite Hg | rewrite IH]; reflexivity.
Qed.

Lemma dedup_update_length (k : key) (a : string) (m : dedup_map_t) :
  List.length (dedup_update k a m) = List.length m.
Proof.
  rewrite <- (length_map fst (dedup_update k a m)), dedup_update_keys.
  apply length_map.
Qed.

Lemma dedup_step_ids (m m' : dedup_map_t) (p : Raw.t) :
  numbered_ids m -> dedup_step m p = Ok m' -> numbered_ids m'.
Proof.
  unfold numbered_ids, dedup_step. intros Hm.
  destruct (hashable_key (raw_key p)); [| discriminate].
  destruct (dedup_get (raw_key p) m); intros H; injection H as <-.
  - rewrite dedup_update_length, <- Hm.
    apply (dedup_update_map Dedup.id), add_agent_id.
  - rewrite map_app, length_app, seq_app, map_app, Hm. simpl.
    rewrite Nat.add_1_r. reflexivity.
Qed.

Lemma dedup_loop_ids (raw : list Raw.t) (m m' : dedup_map_t) :
  numbered_ids m -> dedup_loop m raw = Ok m' -> numbered_ids m'.
Proof.
  revert m. induction raw as [| p raw IH]; simpl; intros m Hm H.
  - injection H as <-. exact Hm.
  - bind_inv H. apply (IH a); [| exact H].
    apply (dedup_step_ids m a p); assumption.
Qed.

Lemma dedup_update_undecided (k : key) (a : string) (m : dedup_map_t) :
  Forall (fun kd => undecided (snd kd)) m ->
  Forall (fun kd => undecided (snd kd)) (dedup_update k a m).
Proof.
  induction 1 as [| [k' d] m Hd Hm IH]; simpl; [constructor |].
  destruct (key_eqb k k'); constructor; try assumption.
  apply add_agent_undecided, Hd.
Qed.

Lemma dedup_step_undecided (m m' : dedup_map_t) (p : Raw.t) :
  Forall (fun kd => undecided (snd kd)) m -> dedup_step m p = Ok m' ->
  Forall (fun kd => undecided (snd kd)) m'.
Proof.
  unfold dedup_step. intros Hm.
  destruct (hashable_key (raw_key p)); [| discriminate].
  destruct (dedup_get (raw_key p) m); intros H; injection H as <-.
  - apply dedup_update_undecided, Hm.
  - apply Forall_app. split; [exact Hm |].
    constructor; [repeat split | constructor].
Qed.

Lemma dedup_loop_undecided (raw : list Raw.t) (m m' : dedup_map_t) :
  Forall (fun kd => undecided (snd kd)) m -> dedup_loop m raw = Ok m' ->
  Forall (fun kd => undecided (snd kd)) m'.
Proof.
  revert m. induction raw as [| p raw IH]; simpl; intros m Hm H.
  - injection H as <-. exact Hm.
  - bind_inv H. apply (IH a); [| exact H].
    apply (dedup_step_undecided m a p); assumption.
Qed.

(** X2: when the deduplication completes, the entries of [dedup_map] have
    the ids patch-dedup-1, patch-dedup-2, ... in the order in which their
    keys were first met; the sorted deduplicated list has these ids, each
    once. *)
Theorem deduplicated_ids_numbered (raw : list Raw.t) (ds : list Dedup.t) :
  deduplicated_patch_candidates raw = Ok ds ->
  (exists dedup_map,
      dedup_loop [] raw = Ok dedup_map
      /\ map Dedup.id (map snd dedup_map)
         = map (fun n => "patch-dedup-" ++ str n)%string
               (seq 1 (List.length ds)))
  /\ Permutation
       (map (fun n => "patch-dedup-" ++ str n)%string (seq 1 (List.length ds)))
       (map Dedup.id ds)
  /\ NoDup (map Dedup.id ds).
Proof.
  intros H. apply deduplicated_Ok in H.
  destruct H as [m [Hloop [_ [_ Hperm]]]].
  assert (Hids : numbered_ids m).
  { apply (dedup_loop_ids raw [] m); [reflexivity | exact Hloop]. }
  assert (Hlen : List.length ds = List.length m).
  { rewrite <- (Permutation_length Hperm). apply length_map. }
  unfold numbered_ids in Hids. rewrite <- Hlen in Hids.
  assert (Hp : Permutation
                 (map (fun n => "patch-dedup-" ++ str n)%string
                      (seq 1 (List.length ds)))
                 (map Dedup.id ds)).
  { rewrite <- Hids, <- (map_map snd Dedup.id).
    apply Permutation_map, Hperm. }
  split; [| split].
  - exists m. split; [exact Hloop |]. rewrite map_map. exact Hids.
  - exact Hp.
  - apply (Permutation_NoDup Hp), numbered_NoDup.
Qed.

Lemma deduplicated_ids_numbered_witness :
  exists ds,
    deduplicated_patch_candidates merge_scenario = Ok ds
    /\ NoDup (map Dedup.id ds)
    /\ List.length ds = 2.
Proof.
  eexists. split; [vm_compute; reflexivity |]. split.
  - apply (deduplicated_ids_numbered merge_scenario). vm_compute. reflexivity.
  - reflexivity.
Defined.

(** X3: merging never decides anything: when the deduplication completes,
    every deduplicated candidate, merged or not, still has status
    "proposed", requires_user_confirmation true, user_decision "deferred"
    and empty user_notes, and every decision made from it is "deferred"
    with empty notes, approver and date. *)
Theorem deduplicated_candidates_undecided (raw : list Raw.t)
    (ds : list Dedup.t) :
  deduplicated_patch_candidates raw = Ok ds ->
  Forall undecided ds
  /\ Forall (fun s => Slot.user_decision s = "deferred"
                      /\ Slot.user_notes s = ""
                      /\ Slot.approved_by s = ""
                      /\ Slot.approved_at s = "") (map decision ds).
Proof.
  intros H. apply deduplicated_Ok in H.
  destruct H as [m [Hloop [_ [_ Hperm]]]].
  split.
  - apply (Permutation_Forall Hperm), Forall_map.
    apply (dedup_loop_undecided raw [] m); [constructor | exact Hloop].
  - apply Forall_map, Forall_forall. intros d _. repeat split.
Qed.

Lemma deduplicated_candidates_undecided_witness :
  exists ds,
    deduplicated_patch_candidates merge_scenario = Ok ds
    /\ Forall undecided ds
    /\ map Dedup.source_agents ds = [["logic"; "code_quality"]; ["logic"]].
Proof.
  eexists. split; [vm_compute; reflexivity |]. split.
  - apply (deduplicated_candidates_undecided merge_scenario).
    vm_compute. reflexivity.
  - reflexivity.
Defined.

(** ** Lists that are already in order *)

Section Ranked.
Context {A : Type}.
Variable key : A -> result Z.

Lemma list_sort_defined_input (l s : list A) :
  list_sort key l = Ok s -> Forall (fun x => exists k, key x = Ok k) l.
Proof.
  intros H. apply Forall_forall. intros x Hx.
  apply (list_sort_key_defined key l s H).
  apply (Permutation_in x (list_sort_perm key l s H)), Hx.
Qed.

Lemma decorated_sorted (kl : list (Z * A)) :
  StronglySorted key_le kl ->
  Forall (fun p => key (snd p) = Ok (fst p)) kl ->
  StronglySorted (rank_le key) (map snd kl).
Proof.
  induction 1 as [| p kl Hs IH Hall]; simpl; intros Hk; [constructor |].
  constructor; [apply IH, (Forall_inv_tail Hk) |].
  apply Forall_map. rewrite Forall_forall in Hall |- *.
  intros q Hq ra rb Ha Hb.
  pose proof (Forall_inv Hk) as Hp. simpl in Hp.
  pose proof (Forall_inv_tail Hk) as Hqs. rewrite Forall_forall in Hqs.
  rewrite Hp in Ha. rewrite (Hqs q Hq) in Hb.
  injection Ha as <-. injection Hb as <-. apply Hall, Hq.
Qed.

(** The result of the sort is in the order of the ranks. *)
Lemma list_sort_sorted (l s : list A) :
  list_sort key l = Ok s -> StronglySorted (rank_le key) s.
Proof.
  unfold list_sort. intros H. bind_inv H. injection H as <-.
  apply decorated_sorted; [apply isort_sorted |].
  apply (Permutation_Forall (isort_perm a)), (decorate_keys key l a Hbind).
Qed.

Lemma sorted_decorated (kl : list (Z * A)) :
  StronglySorted (rank_le key) (map snd kl) ->
  Forall (fun p => key (snd p) = Ok (fst p)) kl ->
  StronglySorted key_le kl.
Proof.
  induction kl as [| p kl IH]; simpl; intros Hs Hk; [constructor |].
  apply StronglySorted_inv in Hs. destruct Hs as [Hs Hall].
  constructor; [apply IH; [exact Hs | exact (Forall_inv_tail Hk)] |].
  pose proof (Forall_inv Hk) as Hp.
  pose proof (Forall_inv_tail Hk) as Hqs.
  rewrite Forall_forall in Hall, Hqs |- *.
  intros q Hq. unfold key_le.
  apply (Hall (snd q) (in_map snd _ _ Hq)); [exact Hp | apply Hqs, Hq].
Qed.

(** The sort leaves a list that is in the order of the ranks as it is. *)
Lemma list_sort_sorted_id (l : list A) :
  StronglySorted (rank_le key) l ->
  Forall (fun x => exists k, key x = Ok k) l ->
  list_sort key l = Ok l.
Proof.
  intros Hs Hd. destruct (decorate_total key l Hd) as [kl Hkl].
  unfold list_sort. rewrite Hkl. simpl.
  pose proof (decorate_snd key l kl Hkl) as Hsnd.
  pose proof (decorate_keys key l kl Hkl) as Hk.
  rewrite <- Hsnd in Hs.
  rewrite (isort_sorted_id kl (sorted_decorated kl Hs Hk)), Hsnd.
  reflexivity.
Qed.
End Ranked.

Lemma rank_le_map {A B : Type} (f : A -> B) (key : B -> result Z)
    (l : list A) :
  StronglySorted (rank_le key) (map f l)
  <-> StronglySorted (rank_le (fun x => key (f x))) l.
Proof.
  induction l as [| x l IH]; simpl.
  - split; constructor.
  - split; intros H; apply StronglySorted_inv in H; destruct H as [Hs Hall];
      (constructor; [apply IH, Hs |]).
    + exact (proj1 (Forall_map f (rank_le key (f x)) l) Hall).
    + exact (proj2 (Forall_map f (rank_le key (f x)) l) Hall).
Qed.

Lemma sorted_firstn {A : Type} (R : A -> A -> Prop) (n : nat) (l : list A) :
  StronglySorted R l -> StronglySorted R (firstn n l).
Proof.
  intros H. revert n. induction H as [| x l Hs IH Hall]; intros n.
  - rewrite firstn_nil. constructor.
  - destruct n as [| n]; simpl; [constructor |].
    constructor; [apply IH |].
    rewrite Forall_forall in Hall |- *. intros y Hy.
    apply Hall, (firstn_In n l y Hy).
Qed.

Lemma sorted_remove {A : Type} (R : A -> A -> Prop) (l1 l2 : list A) (x : A) :
  StronglySorted R (l1 ++ x :: l2) -> StronglySorted R (l1 ++ l2).
Proof.
  induction l1 as [| y l1 IH]; simpl; intros H;
    apply StronglySorted_inv in H; destruct H as [Hs Hall].
  - exact Hs.
  - constructor; [apply IH, Hs |].
    apply Forall_app in Hall. destruct Hall as [H1 H2].
    apply Forall_app. split; [exact H1 | exact (Forall_inv_tail H2)].
Qed.

(** ** The raw candidates and the map are in the order of the ranks *)

Lemma enumerate_raw_priorities (start : nat) (l : list finding) :
  map Raw.priority (enumerate_raw start l) = map severity_of l.
Proof.
  revert start. induction l as [| f l IH]; simpl; intros start;
    [reflexivity | rewrite IH; reflexivity].
Qed.

Lemma dedup_step_priorities (m m' : dedup_map_t) (p : Raw.t)
    (rest : list json) :
  StronglySorted (rank_le rank) (priorities m ++ Raw.priority p :: rest) ->
  dedup_step m p = Ok m' ->
  StronglySorted (rank_le rank) (priorities m' ++ rest).
Proof.
  unfold dedup_step, priorities. intros Hs.
  destruct (hashable_key (raw_key p)); [| discriminate].
  destruct (dedup_get (raw_key p) m); intros H; injection H as <-.
  - rewrite (dedup_update_map Dedup.priority) by apply add_agent_priority.
    apply (sorted_remove _ _ _ _ Hs).
  - rewrite map_app, <- app_assoc. exact Hs.
Qed.

Lemma dedup_loop_priorities (raw : list Raw.t) (m m' : dedup_map_t) :
  StronglySorted (rank_le rank) (priorities m ++ map Raw.priority raw) ->
  dedup_loop m raw = Ok m' ->
  StronglySorted (rank_le rank) (priorities m').
Proof.
  revert m. induction raw as [| p raw IH]; simpl; intros m Hs H.
  - injection H as <-. rewrite app_nil_r in Hs. exact Hs.
  - bind_inv H. apply (IH a); [| exact H].
    apply (dedup_step_priorities m a p _ Hs Hbind).
Qed.

(** X4: in a run that completes, the raw candidates are in the order of
    the ranks already, so the entries of [dedup_map] are too, and the sort
    of lines 75-77 changes nothing: the deduplicated list of the handoff is
    the values of [dedup_map] in the order of insertion, its ids are
    patch-dedup-1, patch-dedup-2, ... in that order, and so are the
    patch_ids of the confirmation template. *)
Theorem final_sort_keeps_insertion_order (w : world) (m : memory) :
  build w = Ok m ->
  let dedup := Handoff.deduplicated_patch_candidates (m_handoff m) in
  let numbers :=
    map (fun n => "patch-dedup-" ++ str n)%string (seq 1 (List.length dedup)) in
  (exists dedup_map,
      dedup_loop [] (Handoff.raw_patch_candidates (m_handoff m)) = Ok dedup_map
      /\ dedup = map snd dedup_map)
  /\ map Dedup.id dedup = numbers
  /\ map Slot.patch_id (Template.decisions (m_confirmation_template m))
     = numbers.
Proof.
  intros H. apply build_Ok in H.
  destruct H as [agents [fs [ds [_ [Hsort [Hdedup ->]]]]]].
  cbn [m_handoff m_confirmation_template handoff confirmation_template
       Handoff.deduplicated_patch_candidates Handoff.raw_patch_candidates
       Template.decisions].
  apply deduplicated_Ok in Hdedup.
  destruct Hdedup as [dm [Hloop [_ [Hds _]]]].
  assert (Hsorted : StronglySorted (rank_le priority_key) (map snd dm)).
  { apply (rank_le_map Dedup.priority rank). rewrite map_map.
    apply (dedup_loop_priorities (raw_patch_candidates fs) [] dm);
      [| exact Hloop].
    simpl. unfold raw_patch_candidates. rewrite enumerate_raw_priorities.
    apply (rank_le_map severity_of rank), sorted_firstn.
    exact (list_sort_sorted severity_key _ _ Hsort). }
  rewrite (list_sort_sorted_id priority_key (map snd dm) Hsorted
             (list_sort_defined_input priority_key _ _ Hds)) in Hds.
  injection Hds as <-.
  pose proof (dedup_loop_ids _ [] dm eq_refl Hloop) as Hids.
  unfold numbered_ids in Hids. rewrite !map_map, length_map.
  split; [exists dm; split; [exact Hloop | reflexivity] |].
  split; exact Hids.
Qed.

Lemma final_sort_keeps_insertion_order_witness :
  exists m,
    build two_reports = Ok m
    /\ map Dedup.id (Handoff.deduplicated_patch_candidates (m_handoff m))
       = ["patch-dedup-1"; "patch-dedup-2"; "patch-dedup-3"; "patch-dedup-4";
          "patch-dedup-5"].
Proof.
  eexists. split; [vm_compute; reflexivity |].
  match goal with
  | |- context [m_handoff ?m] =>
      destruct (final_sort_keeps_insertion_order two_reports m)
        as [_ [Hids _]]
  end.
  - vm_compute. reflexivity.
  - exact Hids.
Defined.

(** ** Where the source agents come from *)

Lemma aggregated_agent (w : world) (f : finding) :
  In f (aggregated w) -> In (agent f) agent_keys.
Proof.
  unfold aggregated. intros Hf. apply in_flat_map in Hf.
  destruct Hf as [e [He Hfe]].
  apply contribution_agent in Hfe. destruct Hfe as [-> _].
  simpl in He. destruct He as [<- | [<- | [<- | [<- | []]]]]; simpl; tauto.
Qed.

Lemma under_incl (k : key) (raw : list Raw.t) (p : Raw.t) :
  In p (under k raw) -> In p raw /\ key_eqb (raw_key p) k = true.
Proof. unfold under. intros H. apply filter_In in H. exact H. Qed.

(** X5: in a run that completes, the source agent of every raw candidate
    is one of the four agent keys, and the source_agents of every
    deduplicated candidate are agent keys, each once: four at most. *)
Theorem source_agents_are_agent_keys (w : world) (m : memory) :
  build w = Ok m ->
  (forall p, In p (Handoff.raw_patch_candidates (m_handoff m)) ->
             In (Raw.source_agent p) agent_keys)
  /\ (forall d, In d (Handoff.deduplicated_patch_candidates (m_handoff m)) ->
        incl (Dedup.source_agents d) agent_keys
        /\ NoDup (Dedup.source_agents d)
        /\ 1 <= List.length (Dedup.source_agents d) <= 4).
Proof.
  intros H. apply build_Ok in H.
  destruct H as [agents [fs [ds [_ [Hsort [Hdedup ->]]]]]].
  cbn [m_handoff handoff Handoff.deduplicated_patch_candidates
       Handoff.raw_patch_candidates].
  assert (Hraw : forall p, In p (raw_patch_candidates fs) ->
                           In (Raw.source_agent p) agent_keys).
  { intros p Hp. apply enumerate_raw_In in Hp.
    destruct Hp as [i [f [Hf ->]]]. simpl.
    apply (aggregated_agent w).
    apply (Permutation_in f (Permutation_sym (list_sort_perm _ _ _ Hsort))).
    apply (firstn_In _ _ _ Hf). }
  split; [exact Hraw |].
  intros d Hd. apply deduplicated_Ok in Hdedup.
  destruct Hdedup as [dm [_ [Hinv [_ Hperm]]]].
  apply (Permutation_in _ (Permutation_sym Hperm)) in Hd.
  destruct (invariant_entry _ _ d Hinv Hd) as [Hsa [q [rest [Hu _]]]].
  assert (Hincl : incl (Dedup.source_agents d) agent_keys).
  { intros a Ha. rewrite Hsa in Ha. apply (proj1 (distinct_In _ _)) in Ha.
    apply in_map_iff in Ha. destruct Ha as [p [<- Hp]].
    apply Hraw. apply under_incl in Hp. exact (proj1 Hp). }
  assert (Hnd : NoDup (Dedup.source_agents d))
    by (rewrite Hsa; apply distinct_NoDup).
  split; [exact Hincl |]. split; [exact Hnd |]. split.
  - rewrite Hsa, Hu. simpl. lia.
  - apply (NoDup_incl_length Hnd Hincl).
Qed.

Lemma source_agents_are_agent_keys_witness :
  exists m,
    build two_reports = Ok m
    /\ forall p, In p (Handoff.raw_patch_candidates (m_handoff m)) ->
                 In (Raw.source_agent p) agent_keys.
Proof.
  eexists. split; [vm_compute; reflexivity |].
  match goal with
  | |- context [m_handoff ?m] =>
      destruct (source_agents_are_agent_keys two_reports m) as [Hraw _]
  end.
  - vm_compute. reflexivity.
  - exact Hraw.
Defined.

(** ** Every raw candidate is kept *)

Lemma NoDup_map_eq {A B : Type} (f : A -> B) (l : list A) (x y : A) :
  NoDup (map f l) -> In x l -> In y l -> f x = f y -> x = y.
Proof.
  induction l as [| z l IH]; simpl; [intros _ [] |].
  intros Hnd Hx Hy E. apply NoDup_cons_iff in Hnd. destruct Hnd as [Hz Hnd].
  destruct Hx as [-> | Hx], Hy as [-> | Hy].
  - reflexivity.
  - exfalso. apply Hz. rewrite E. apply in_map, Hy.
  - exfalso. apply Hz. rewrite <- E. apply in_map, Hx.
  - apply IH; assumption.
Qed.

Lemma raw_has_entry (raw : list Raw.t) (m : dedup_map_t) (p : Raw.t) :
  invariant raw m -> In p raw ->
  exists d, In d (map snd m)
            /\ key_eqb (raw_key p) (dedup_key d) = true
            /\ In (Raw.source_agent p) (Dedup.source_agents d).
Proof.
  intros Hinv Hp.
  destruct (invariant_keys _ _ Hinv) as [Hfst _].
  pose proof (inv_covered _ _ Hinv) as Hcov.
  rewrite Forall_forall in Hcov. specialize (Hcov p Hp).
  apply Exists_exists in Hcov. destruct Hcov as [k [Hk Hpk]].
  rewrite Hfst in Hk. apply in_map_iff in Hk. destruct Hk as [d [Hdk Hd]].
  subst k. exists d.
  destruct (invariant_entry _ _ d Hinv Hd) as [Hsa _].
  split; [exact Hd |]. split; [exact Hpk |].
  rewrite Hsa. apply distinct_In, in_map. unfold under.
  apply filter_In. split; assumption.
Qed.

(** X6: when the deduplication completes, every raw candidate is under
    the key of exactly one deduplicated candidate, which has the raw
    candidate's source agent among its source_agents: the deduplication
    loses no candidate and no agent. *)
Theorem every_raw_candidate_is_represented (raw : list Raw.t)
    (ds : list Dedup.t) :
  deduplicated_patch_candidates raw = Ok ds ->
  forall p, In p raw ->
    exists d,
      In d ds
      /\ key_eqb (raw_key p) (dedup_key d) = true
      /\ In (Raw.source_agent p) (Dedup.source_agents d)
      /\ (forall d', In d' ds ->
            key_eqb (raw_key p) (dedup_key d') = true -> d' = d).
Proof.
  intros H p Hp. apply deduplicated_Ok in H.
  destruct H as [m [_ [Hinv [_ Hperm]]]].
  destruct (invariant_keys _ _ Hinv) as [Hfst Hhash].
  pose proof (inv_fresh _ _ Hinv) as Hfresh.
  destruct (raw_has_entry raw m p Hinv Hp) as [d [Hd [Hpk Hsa]]].
  exists d.
  split; [apply (Permutation_in _ Hperm), Hd |].
  split; [exact Hpk |]. split; [exact Hsa |].
  intros d' Hd' Hpk'.
  apply (Permutation_in _ (Permutation_sym Hperm)) in Hd'.
  apply (NoDup_map_eq dedup_key (map snd m)); try assumption.
  - rewrite <- Hfst. apply fresh_keys_NoDup; assumption.
  - apply (fresh_keys_eq (map fst m)); try assumption.
    + rewrite Hfst. apply in_map, Hd'.
    + rewrite Hfst. apply in_map, Hd.
    + apply (key_eqb_common (raw_key p)); assumption.
Qed.

Lemma every_raw_candidate_is_represented_witness :
  exists ds,
    deduplicated_patch_candidates merge_scenario = Ok ds
    /\ forall p, In p merge_scenario ->
         exists d, In d ds /\ key_eqb (raw_key p) (dedup_key d) = true.
Proof.
  eexists. split; [vm_compute; reflexivity |].
  intros p Hp.
  destruct (every_raw_candidate_is_represented merge_scenario _ eq_refl p Hp)
    as [d [Hd [Hk _]]].
  exists d. split; assumption.
Defined.

(** ** Lists and dicts where a value is hashed *)

Lemma severity_key_unhashable (f : finding) :
  hashable (severity_of f) = false -> severity_key f = Raise TypeError.
Proof. apply severity_order_get_unhashable. Qed.

Lemma severity_key_hashable (f : finding) :
  hashable (severity_of f) = true -> exists r, severity_key f = Ok r.
Proof. apply severity_order_get_total. Qed.

Lemma list_sort_severity_unhashable (l : list finding) :
  Exists (fun f => hashable (severity_of f) = false) l ->
  list_sort severity_key l = Raise TypeError.
Proof.
  intros Hex. unfold list_sort.
  assert (H : decorate severity_key l = Raise TypeError);
    [| rewrite H; reflexivity].
  induction l as [| x l IH]; [inversion Hex |].
  simpl. destruct (hashable (severity_of x)) eqn:Hx.
  - destruct (severity_key_hashable x Hx) as [r ->]. simpl.
    rewrite IH; [reflexivity |].
    apply Exists_cons in Hex. destruct Hex as [Hex | Hex];
      [rewrite Hx in Hex; discriminate Hex | exact Hex].
  - rewrite (severity_key_unhashable x Hx). reflexivity.
Qed.

Lemma dedup_loop_unhashable (raw : list Raw.t) (m : dedup_map_t) :
  Exists (fun p => hashable_key (raw_key p) = false) raw ->
  dedup_loop m raw = Raise TypeError.
Proof.
  revert m. induction raw as [| p raw IH]; intros m Hex; [inversion Hex |].
  simpl. unfold dedup_step.
  destruct (hashable_key (raw_key p)) eqn:Hp; [| reflexivity].
  assert (Hrest : Exists (fun p => hashable_key (raw_key p) = false) raw).
  { apply Exists_cons in Hex. destruct Hex as [Hex | Hex];
      [rewrite Hp in Hex; discriminate Hex | exact Hex]. }
  destruct (dedup_get (raw_key p) m); simpl; apply IH, Hrest.
Qed.

Lemma enumerate_raw_unhashable (start : nat) (l : list finding) :
  Exists (fun f => hashable_fields f = false) l ->
  Exists (fun p => hashable_key (raw_key p) = false) (enumerate_raw start l).
Proof.
  intros H. revert start. induction H as [f l Hf | f l _ IH]; intros start.
  - apply Exists_cons_hd. exact Hf.
  - apply Exists_cons_tl, IH.
Qed.

Lemma enumerate_raw_hashable (start : nat) (l : list finding) :
  Forall (fun p => hashable_key (raw_key p) = true) (enumerate_raw start l)
  <-> Forall (fun f => hashable_fields f = true) l.
Proof.
  revert start. induction l as [| f l IH]; simpl; intros start.
  - split; constructor.
  - split; intros H; constructor;
      solve [exact (Forall_inv H)
            | apply (IH (S start)), (Forall_inv_tail H)].
Qed.

Lemma raw_unhashable (fs : list finding) :
  Exists (fun f => hashable_fields f = false) (firstn 30 fs) ->
  Exists (fun p => hashable_key (raw_key p) = false) (raw_patch_candidates fs).
Proof. apply enumerate_raw_unhashable. Qed.

Lemma raw_hashable (fs : list finding) :
  Forall (fun p => hashable_key (raw_key p) = true) (raw_patch_candidates fs)
  <-> Forall (fun f => hashable_fields f = true) (firstn 30 fs).
Proof. apply enumerate_raw_hashable. Qed.

(** The sort of lines 75-77 raises nothing once the loop has returned. *)
Lemma final_sort_total (seen : list Raw.t) (dm : dedup_map_t) :
  invariant seen dm -> exists ds, list_sort priority_key (map snd dm) = Ok ds.
Proof.
  intros Hinv. apply list_sort_total.
  pose proof (inv_keys _ _ Hinv) as Hkeys.
  rewrite Forall_forall in Hkeys |- *. intros d Hd.
  apply in_map_iff in Hd. destruct Hd as [[k d'] [<- Hin]].
  destruct (Hkeys _ Hin) as [Hk Hh]. simpl in Hk, Hh |- *.
  apply severity_order_get_total.
  rewrite Hk in Hh. unfold hashable_key, dedup_key in Hh.
  apply andb_prop in Hh. destruct Hh as [Hh _].
  apply andb_prop in Hh. destruct Hh as [Hh _]. exact Hh.
Qed.

Lemma load_aggregated (w : world) :
  Forall (fun e => disk w (snd e) <> Malformed) (files w) ->
  exists agents, load (disk w) (files w) [] [] = Ok (agents, aggregated w).
Proof.
  intros H. destruct (load_total _ _ [] [] H) as [agents [fs Hload]].
  destruct (load_files w agents fs Hload) as [_ ->].
  exists agents. exact Hload.
Qed.

(** X7: when the reports load, a list or a dict where a value is hashed
    ends the run with TypeError and nothing written: as the severity of any
    finding, whatever its place (line 36), or as the recommendation or the
    risk of one of the first 30 findings of the sorted list (line 58). *)
Theorem list_or_dict_aborts_with_TypeError (w : world) :
  Forall (fun e => disk w (snd e) <> Malformed) (files w) ->
  (Exists (fun f => hashable (severity_of f) = false) (aggregated w) ->
   run w = aborted TypeError)
  /\ (forall sorted,
        list_sort severity_key (aggregated w) = Ok sorted ->
        Exists (fun f => hashable_fields f = false) (firstn 30 sorted) ->
        run w = aborted TypeError).
Proof.
  intros Hfiles. destruct (load_aggregated w Hfiles) as [agents Hload].
  split.
  - intros Hex. unfold run, build. rewrite Hload. cbn [bind].
    rewrite (list_sort_severity_unhashable _ Hex). reflexivity.
  - intros sorted Hsort Hex. unfold run, build. rewrite Hload. cbn [bind].
    rewrite Hsort. cbn [bind]. unfold deduplicated_patch_candidates.
    rewrite (dedup_loop_unhashable _ [] (raw_unhashable sorted Hex)).
    reflexivity.
Qed.

Lemma list_or_dict_aborts_with_TypeError_witness :
  run list_within_cap = aborted TypeError.
Proof.
  destruct (list_or_dict_aborts_with_TypeError list_within_cap) as [_ H].
  - simpl. repeat constructor; simpl; discriminate.
  - apply (H [tag "logic" steps_item]).
    + vm_compute. reflexivity.
    + apply Exists_cons_hd. vm_compute. reflexivity.
Defined.

(** X8: take a run in which every report is missing or parses to a JSON
    object whose "findings", when it has one, is a list of objects.  Lines
    21-110 of such a run complete exactly when no finding has a list or a
    dict as severity and none of the first 30 findings of the sorted list
    has a list or a dict as recommendation or risk.  What the findings
    after the first 30 have as recommendation or risk does not matter. *)
Theorem build_completes_iff (w : world) :
  Forall (fun entry =>
            disk w (snd entry) = Missing
            \/ exists data, disk w (snd entry) = Parsed data) (files w) ->
  (exists m, build w = Ok m)
  <-> Forall (fun f => hashable (severity_of f) = true) (aggregated w)
      /\ (forall sorted,
            list_sort severity_key (aggregated w) = Ok sorted ->
            Forall (fun f => hashable_fields f = true) (firstn 30 sorted)).
Proof.
  intros Hshape.
  assert (Hfiles : Forall (fun e => disk w (snd e) <> Malformed) (files w)).
  { rewrite Forall_forall in Hshape |- *. intros e He.
    destruct (Hshape e He) as [-> | [data ->]]; discriminate. }
  split.
  - intros [m H]. apply build_Ok in H.
    destruct H as [agents [fs [ds [_ [Hsort [Hdedup _]]]]]].
    split.
    + pose proof (list_sort_defined_input _ _ _ Hsort) as Hdef.
      rewrite Forall_forall in Hdef |- *. intros f Hf.
      destruct (Hdef f Hf) as [r Hr].
      apply (severity_order_get_hashable _ r Hr).
    + intros sorted Hsort'. rewrite Hsort in Hsort'. injection Hsort' as <-.
      apply raw_hashable. apply deduplicated_Ok in Hdedup.
      destruct Hdedup as [dm [_ [Hinv _]]]. exact (inv_hashable _ _ Hinv).
  - intros [Hsev Hfirst].
    destruct (load_aggregated w Hfiles) as [agents Hload].
    destruct (list_sort_total severity_key (aggregated w)) as [sorted Hsort].
    { rewrite Forall_forall in Hsev |- *. intros f Hf.
      apply severity_key_hashable, Hsev, Hf. }
    destruct (dedup_loop_total (raw_patch_candidates sorted) []) as [dm Hloop].
    { apply raw_hashable, Hfirst, Hsort. }
    pose proof (dedup_loop_invariant _ [] [] dm invariant_empty Hloop) as Hinv.
    destruct (final_sort_total _ dm Hinv) as [ds Hds].
    unfold build. rewrite Hload. cbn [bind]. rewrite Hsort. cbn [bind].
    unfold deduplicated_patch_candidates. rewrite Hloop. cbn [bind].
    rewrite Hds. cbn [bind]. eexists. reflexivity.
Qed.

Lemma build_completes_iff_witness :
  (exists m, build list_beyond_cap = Ok m)
  /\ Exists (fun f => hashable_fields f = false) (aggregated list_beyond_cap).
Proof.
  split.
  - assert (Hshape : Forall
                       (fun entry =>
                          disk list_beyond_cap (snd entry) = Missing
                          \/ exists data,
                               disk list_beyond_cap (snd entry) = Parsed data)
                       (files list_beyond_cap)).
    { unfold files. repeat apply Forall_cons; try apply Forall_nil;
        first [left; reflexivity | right; eexists; reflexivity]. }
    apply (proj2 (build_completes_iff list_beyond_cap Hshape)).
    split; [vm_compute; repeat constructor |].
    intros sorted H.
    assert (E : list_sort severity_key (aggregated list_beyond_cap)
                = Ok (map (tag "logic")
                          (filter (fun d => has_key severity_key 0 (tag "logic" d))
                                  (map numbered (seq 1 30))
                           ++ filter (fun d => has_key severity_key 2
                                                 (tag "logic" d))
                                     (map numbered (seq 1 30))
                           ++ [steps_item])))
      by (vm_compute; reflexivity).
    rewrite E in H. injection H as <-. vm_compute. repeat constructor.
  - apply Exists_cons_hd. vm_compute. reflexivity.
Defined.

(** ** The paths of a run *)

Lemma append_NoDup (d : string) (names : list string) :
  NoDup names -> NoDup (map (String.append d) names).
Proof.
  apply Finite.Injective_map_NoDup. intros a b. apply append_inj.
Qed.

Lemma path_join_relative (d n : string) :
  prefix "/" n = false ->
  path_join d n
  = (d ++ (if (String.eqb d "" || ends_with_sep d)%bool then n else "/" ++ n))%string.
Proof.
  intros H. unfold path_join. rewrite H.
  destruct (String.eqb d "" || ends_with_sep d)%bool; reflexivity.
Qed.

(** X10: whatever the run directory, the four report paths and the two
    output paths are six different paths: the run never writes over a
    report it reads, and the template never over the handoff. *)
Theorem six_paths_distinct (w : world) :
  NoDup (all_paths w)
  /\ (forall entry, In entry (files w) ->
        snd entry <> handoff_path w /\ snd entry <> confirmation_path w)
  /\ handoff_path w <> confirmation_path w.
Proof.
  assert (Hnd : NoDup (all_paths w)).
  { unfold all_paths, files, handoff_path, confirmation_path.
    cbn [map snd app]. rewrite !path_join_relative by reflexivity.
    destruct (String.eqb (run_dir w) "" || ends_with_sep (run_dir w))%bool.
    - apply (append_NoDup (run_dir w) file_names).
      unfold file_names. repeat constructor; simpl; intuition discriminate.
    - apply (append_NoDup (run_dir w)
               ["/agent-logic.json"; "/agent-code-quality.json";
                "/agent-silent-failure.json"; "/agent-testing-static.json";
                "/handoff.json"; "/patch-confirmation-template.json"]).
      repeat constructor; simpl; intuition discriminate. }
  split; [exact Hnd |].
  unfold all_paths in Hnd. apply NoDup_app_remove_l in Hnd as Hout.
  split.
  - intros entry He.
    assert (Hin : In (snd entry) (map snd (files w))) by (apply in_map, He).
    split; intros E.
    + apply (NoDup_remove_2 (map snd (files w)) [confirmation_path w]
               (handoff_path w) Hnd).
      apply in_or_app. left. rewrite <- E. exact Hin.
    + apply (NoDup_remove_2 (map snd (files w) ++ [handoff_path w]) []
               (confirmation_path w)).
      * rewrite <- app_assoc. exact Hnd.
      * rewrite app_nil_r. apply in_or_app. left. rewrite <- E. exact Hin.
  - apply NoDup_cons_iff in Hout. destruct Hout as [Hnot _].
    intros E. apply Hnot. left. symmetry. exact E.
Qed.

(** ** Runs without findings *)

(** X11: when every report is missing or has no findings, the run raises
    nothing at lines 21-110 and the documents are empty: no finding, no raw
    candidate, no deduplicated candidate, no decision. *)
Theorem no_findings_empty_documents (w : world) :
  Forall (fun entry =>
            disk w (snd entry) = Missing
            \/ exists data, disk w (snd entry) = Parsed data
                            /\ findings_of data = []) (files w) ->
  exists m,
    build w = Ok m
    /\ Handoff.findings (m_handoff m) = []
    /\ Handoff.raw_patch_candidates (m_handoff m) = []
    /\ Handoff.deduplicated_patch_candidates (m_handoff m) = []
    /\ Template.decisions (m_confirmation_template m) = []
    /\ map fst (m_agents m) = agent_keys.
Proof.
  intros Hall.
  assert (Hfiles : Forall (fun e => disk w (snd e) <> Malformed) (files w)).
  { rewrite Forall_forall in Hall |- *. intros e He.
    destruct (Hall e He) as [-> | [data [-> _]]]; discriminate. }
  assert (Hagg : aggregated w = []).
  { clear Hfiles. unfold aggregated.
    induction Hall as [| e l He _ IH]; simpl; [reflexivity |].
    rewrite IH, app_nil_r. unfold contribution.
    destruct He as [-> | [data [-> Hd]]]; [reflexivity |].
    rewrite Hd. reflexivity. }
  destruct (load_aggregated w Hfiles) as [agents Hload].
  destruct (load_files w agents _ Hload) as [Hag _].
  rewrite Hagg in Hload.
  exists {| m_agents := agents;
            m_handoff := handoff w [] [] [];
            m_confirmation_template := confirmation_template w [] |}.
  split; [unfold build; rewrite Hload; reflexivity |].
  repeat (split; [reflexivity |]). simpl. rewrite Hag. reflexivity.
Qed.

Lemma no_findings_empty_documents_witness :
  exists m,
    build no_reports = Ok m
    /\ Handoff.findings (m_handoff m) = []
    /\ Template.decisions (m_confirmation_template m) = [].
Proof.
  destruct (no_findings_empty_documents no_reports)
    as [m [Hb [Hf [_ [_ [Ht _]]]]]].
  - simpl. repeat constructor.
  - exists m. repeat split; assumption.
Defined.

(** ** The findings of each agent *)

Lemma Permutation_filter {A : Type} (f : A -> bool) (l l' : list A) :
  Permutation l l' -> Permutation (filter f l) (filter f l').
Proof.
  induction 1 as [| x l l' _ IH | x y l | l l' l'' _ IH1 _ IH2]; simpl.
  - apply perm_nil.
  - destruct (f x); [apply perm_skip |]; exact IH.
  - destruct (f x), (f y); try apply Permutation_refl. apply perm_swap.
  - apply (perm_trans IH1 IH2).
Qed.

Lemma filter_contribution (disk : string -> file) (entry : string * string)
    (k : string) :
  filter (fun f => String.eqb (agent f) k) (contribution disk entry)
  = if String.eqb (fst entry) k then contribution disk entry else [].
Proof.
  unfold contribution.
  destruct (disk (snd entry)) as [| | data];
    try (destruct (String.eqb (fst entry) k); reflexivity).
  induction (findings_of data) as [| it l IH]; simpl.
  - destruct (String.eqb (fst entry) k); reflexivity.
  - rewrite IH. destruct (String.eqb (fst entry) k); reflexivity.
Qed.

(** X12: in a run that completes, the findings of the handoff that carry
    an agent's key are the findings of that agent's report, each once, with
    the members the report gave them: none is lost, repeated or given to
    another agent (their order may change with the sort). *)
Theorem findings_kept_per_agent (w : world) (m : memory) :
  build w = Ok m ->
  forall k path, In (k, path) (files w) ->
    Permutation
      (contribution (disk w) (k, path))
      (filter (fun f => String.eqb (agent f) k)
              (Handoff.findings (m_handoff m)))
    /\ (forall data, disk w path = Parsed data ->
          contribution (disk w) (k, path) = map (tag k) (findings_of data)).
Proof.
  intros H k path Hin. apply build_Ok in H.
  destruct H as [agents [fs [ds [_ [Hsort [_ ->]]]]]].
  cbn [m_handoff handoff Handoff.findings].
  split.
  - apply perm_trans with
      (filter (fun f => String.eqb (agent f) k) (aggregated w));
      [| apply Permutation_filter, (list_sort_perm _ _ _ Hsort)].
    unfold aggregated. simpl in Hin |- *.
    rewrite !filter_app, !filter_contribution.
    destruct Hin as [E | [E | [E | [E | []]]]]; injection E as <- <-;
      simpl; rewrite ?app_nil_r; apply Permutation_refl.
  - intros data Hd. unfold contribution. simpl. rewrite Hd. reflexivity.
Qed.

Lemma findings_kept_per_agent_witness :
  exists m,
    build two_reports = Ok m
    /\ List.length (filter (fun f => String.eqb (agent f) "code_quality")
                           (Handoff.findings (m_handoff m))) = 3.
Proof.
  eexists. split; [vm_compute; reflexivity |].
  match goal with
  | |- context [m_handoff ?m] =>
      destruct (findings_kept_per_agent two_reports m)
        with (k := "code_quality") (path := "run/agent-code-quality.json")
        as [Hperm _]
  end.
  - vm_compute. reflexivity.
  - simpl. tauto.
  - rewrite <- (Permutation_length Hperm). reflexivity.
Defined.

(** ** What a merge puts together *)

Lemma py_eq_rank (a b : json) : py_eq a b = true -> rank a = rank b.
Proof.
  destruct a as [| x | n | s | l | d], b as [| y | n' | s' | l' | d'];
    cbn [py_eq]; try discriminate; try reflexivity.
  intros H. apply String.eqb_eq in H. subst s'. reflexivity.
Qed.

Lemma py_eq_string (s : string) (b : json) :
  py_eq (JStr s) b = true -> b = JStr s.
Proof.
  destruct b as [| x | n | t | l | d]; cbn [py_eq]; try discriminate.
  intros H. apply String.eqb_eq in H. subst t. reflexivity.
Qed.

(** X13: when the deduplication completes, every raw candidate has gone
    into a deduplicated candidate of its own severity rank; and a priority,
    a change_summary or a risk_if_not_applied that is a string in the raw
    candidate is that same string in the deduplicated one: a merge never
    puts together two different texts or two severities of different
    rank. *)
Theorem merged_candidates_agree (raw : list Raw.t) (ds : list Dedup.t) :
  deduplicated_patch_candidates raw = Ok ds ->
  forall p, In p raw ->
    exists d,
      In d ds
      /\ In (Raw.source_agent p) (Dedup.source_agents d)
      /\ priority_key d = rank (Raw.priority p)
      /\ (forall s, Raw.priority p = JStr s -> Dedup.priority d = JStr s)
      /\ (forall s, Raw.change_summary p = JStr s ->
                    Dedup.change_summary d = JStr s)
      /\ (forall s, Raw.risk_if_not_applied p = JStr s ->
                    Dedup.risk_if_not_applied d = JStr s).
Proof.
  intros H p Hp. apply deduplicated_Ok in H.
  destruct H as [m [_ [Hinv [_ Hperm]]]].
  destruct (raw_has_entry raw m p Hinv Hp) as [d [Hd [Hk Hsa]]].
  exists d. split; [apply (Permutation_in _ Hperm), Hd |].
  split; [exact Hsa |].
  unfold key_eqb, raw_key, dedup_key in Hk.
  apply andb_prop in Hk. destruct Hk as [Hk Hc].
  apply andb_prop in Hk. destruct Hk as [Ha Hb].
  split; [symmetry; exact (py_eq_rank _ _ Ha) |].
  split; [| split]; intros s Hs; rewrite Hs in *; apply py_eq_string;
    assumption.
Qed.

Lemma merged_candidates_agree_witness :
  exists ds,
    deduplicated_patch_candidates merge_scenario = Ok ds
    /\ forall p, In p merge_scenario ->
         exists d, In d ds /\ priority_key d = rank (Raw.priority p).
Proof.
  eexists. split; [vm_compute; reflexivity |].
  intros p Hp.
  destruct (merged_candidates_agree merge_scenario _ eq_refl p Hp)
    as [d [Hd [_ [Hr _]]]].
  exists d. split; assumption.
Defined.
